(** * Incremental Delaunay mesh (TRIPACK port): a shallow embedding

    Embedding of [boost/math/interpolators/detail/tri_mesh.hpp] and
    [boost/math/interpolators/detail/triangulation.hpp].

    Conventions of the embedding.
    - The code is a template over the numeric type [Real].  The embedding is
      parametrised in the same way: the class [RealOps] lists the operations
      the source applies to [Real], and every function that computes with
      coordinates takes an instance of it.  Two instances are given:
      [binary64_ops], IEEE 754 double precision with its rounding, infinities
      and NaN (the primitive floats of the kernel), and [exact_ops], the real
      numbers of the Standard Library, an instantiation without rounding.
    - [std::size_t] values are integers in [0, 2^64) with the wrap-around
      written out ([to_size_t]); [long] values are integers.
    - [std::vector] is a [list]; [operator[]] is unchecked in the source, so a
      subscript outside the vector is undefined behaviour, which the embedding
      reports as the outcome [Undefined OutOfRange] instead of inventing a
      value.  [push_back] throws [std::length_error] on a vector that holds
      [max_size()] elements and [std::bad_alloc] when the allocator cannot
      provide the storage; the number of elements the allocator can provide
      is the parameter [heap] of the functions that grow a vector.
    - A data member without initialiser that no statement has assigned yet is
      [None]. *)

From Stdlib Require Import Floats.
From Stdlib Require Import ZArith String Ascii Bool Lia List FinFun.
From Stdlib Require Import Reals Lra.
Import ListNotations.

Local Open Scope Z_scope.

(** ** Outcomes of running a piece of the program *)

Module Outcome.

(** The exception classes the code can throw. *)
Inductive exn_class : Type :=
| logic_error
| domain_error
| length_error
| bad_alloc.



Record exception : Type := mk_exception {
  exn_type : exn_class;
  what : string
}.


(** Undefined behaviour that the source can run into. *)
Inductive undefined_behaviour : Type :=
| OutOfRange      (* subscript or iterator dereference outside the sequence *)
| MissingReturn.  (* control reaches the end of a value-returning function *)

Inductive result (A : Type) : Type :=
| Ok (a : A)
| Throw (e : exception)
| Undefined (u : undefined_behaviour)
| OutOfFuel.

Arguments Ok {A} a.
Arguments Throw {A} e.
Arguments Undefined {A} u.
Arguments OutOfFuel {A}.

Definition bind {A B : Type} (r : result A) (k : A -> result B) : result B :=
  match r with
  | Ok a => k a
  | Throw e => Throw e
  | Undefined u => Undefined u
  | OutOfFuel => OutOfFuel
  end.

End Outcome.
Export Outcome.

Declare Scope outcome_scope.
Delimit Scope outcome_scope with outcome.
Notation "x <- e ;; k" := (bind e (fun x => k))
  (at level 61, e at next level, right associativity) : outcome_scope.
Notation "e ;;; k" := (bind e (fun _ => k))
  (at level 61, right associativity) : outcome_scope.
Local Open Scope outcome_scope.

(** ** Machine integers and vectors *)

Definition size_t_modulus : Z := 2 ^ 64.

(** Conversion to [std::size_t] (also the result of unsigned arithmetic). *)
Definition to_size_t (z : Z) : Z := z mod size_t_modulus.

(** [std::vector<T>::max_size()] for an 8-byte element type. *)
Definition vector_max_size : Z := 2 ^ 60 - 1.

(** [v[i]] as an rvalue. *)
Definition vget {A : Type} (v : list A) (i : Z) : result A :=
  if (0 <=? i) && (i <? Z.of_nat (length v)) then
    match nth_error v (Z.to_nat i) with
    | Some a => Ok a
    | None => Undefined OutOfRange
    end
  else Undefined OutOfRange.

Fixpoint replace_nth {A : Type} (v : list A) (n : nat) (a : A) : list A :=
  match v, n with
  | [], _ => []
  | _ :: v', O => a :: v'
  | b :: v', S n' => b :: replace_nth v' n' a
  end.

(** [v[i] = a]. *)
Definition vset {A : Type} (v : list A) (i : Z) (a : A) : result (list A) :=
  if (0 <=? i) && (i <? Z.of_nat (length v)) then Ok (replace_nth v (Z.to_nat i) a)
  else Undefined OutOfRange.

(** [v.resize(n)] on an empty vector of a value-initialised element type. *)
Definition resize_empty {A : Type} (zero : A) (n : nat) : list A := repeat zero n.

(** The exception of [push_back] on a full vector (the text of [what()] is
    the one of libstdc++). *)
Definition vector_length_error : exception :=
  mk_exception length_error "vector::_M_realloc_insert".

(** The exception of a failing allocation. *)
Definition vector_bad_alloc : exception := mk_exception bad_alloc "std::bad_alloc".

(** [v.push_back(a)], where the allocator can provide storage for [heap]
    elements. *)
Definition push_back {A : Type} (heap : Z) (v : list A) (a : A) : result (list A) :=
  let size := Z.of_nat (length v) in
  if vector_max_size <=? size then Throw vector_length_error
  else if heap <=? size then Throw vector_bad_alloc
  else Ok (v ++ [a]).

(** The size up to which a vector can grow. *)
Definition capacity (heap : Z) : Z := Z.min heap vector_max_size.

(** The exceptions of a vector that cannot grow. *)
Definition allocation_failure (e : exception) : Prop :=
  e = vector_length_error \/ e = vector_bad_alloc.

(** ** The numeric type [Real] *)

(** The operations the source applies to values of type [Real]. *)
Class RealOps (Real : Type) : Type := {
  of_int : Z -> Real;            (* conversion of an integer literal *)
  radd : Real -> Real -> Real;
  rsub : Real -> Real -> Real;
  rmul : Real -> Real -> Real;
  rdiv : Real -> Real -> Real;
  ropp : Real -> Real;
  rabs : Real -> Real;           (* std::abs *)
  rsqrt : Real -> Real;          (* std::sqrt *)
  rgeb : Real -> Real -> bool;   (* a >= b *)
  fp_zero : Real -> bool         (* fpclassify(a) == FP_ZERO *)
}.

Declare Scope real_scope.
Delimit Scope real_scope with real.
Notation "a + b" := (radd a b) : real_scope.
Notation "a - b" := (rsub a b) : real_scope.
Notation "a * b" := (rmul a b) : real_scope.
Notation "a / b" := (rdiv a b) : real_scope.
Notation "- a" := (ropp a) : real_scope.

(** The comparison [a >= b] on the real numbers. *)
Definition Rgeb (a b : R) : bool := if Rle_dec b a then true else false.

(** Exact arithmetic: the real numbers. *)
#[export] Instance exact_ops : RealOps R := {
  of_int := IZR;
  radd := Rplus;
  rsub := Rminus;
  rmul := Rmult;
  rdiv := Rdiv;
  ropp := Ropp;
  rabs := Rabs;
  rsqrt := Reals.R_sqrt.sqrt;
  rgeb := Rgeb;
  fp_zero := fun a => if Req_dec_T a 0 then true else false
}.

(** Conversion of an integer literal to [double]. *)
Definition float_of_Z (z : Z) : float :=
  match z with
  | Z0 => PrimFloat.zero
  | Zpos _ => PrimFloat.of_uint63 (Uint63.of_Z z)
  | Zneg _ => PrimFloat.opp (PrimFloat.of_uint63 (Uint63.of_Z (- z)))
  end.

(** IEEE 754 binary64, the type [double]. *)
#[export] Instance binary64_ops : RealOps float := {
  of_int := float_of_Z;
  radd := PrimFloat.add;
  rsub := PrimFloat.sub;
  rmul := PrimFloat.mul;
  rdiv := PrimFloat.div;
  ropp := PrimFloat.opp;
  rabs := PrimFloat.abs;
  rsqrt := PrimFloat.sqrt;
  rgeb := fun a b => PrimFloat.leb b a;
  fp_zero := fun a =>
    match PrimFloat.classify a with
    | PZero | NZero => true
    | _ => false
    end
}.

(** A [double] that is neither an infinity nor a NaN. *)
Definition finite64 (f : float) : bool :=
  match Prim2SF f with
  | S754_zero _ | S754_finite _ _ _ => true
  | _ => false
  end.


(** ** Geometric predicates *)

Module Predicates.

Section WithReal.
Context {Real : Type} {ops : RealOps Real}.
Local Open Scope real_scope.

(** [tri_mesh::left] *)
Definition left (x1 y1 x2 y2 x0 y0 : Real) : bool :=
  (* Components of vector N1->N2 *)
  let dx1 := x2 - x1 in
  let dy1 := y2 - y1 in
  (* Components of vector N1->N0 *)
  let dx2 := x0 - x1 in
  let dy2 := y0 - y1 in
  rgeb (dx1 * dy2) (dx2 * dy1).

(** [tri_mesh::forward] *)
Definition forward (xa ya xb yb xc yc : Real) : bool :=
  rgeb ((xb - xa) * (xc - xa) + (yb - ya) * (yc - ya)) (of_int 0).

End WithReal.


End Predicates.
Export Predicates.

(** ** Triangle geometry *)

Module Geometry.

(** [struct triangle]: the constructor initialises the six coordinates only. *)
Record triangle (Real : Type) : Type := mk_triangle {
  x1 : Real; y1 : Real;
  x2 : Real; y2 : Real;
  x3 : Real; y3 : Real;
  xc : option Real;
  yc : option Real;
  circumradius : option Real;
  area : option Real;
  aspect_ratio : option Real
}.

Arguments mk_triangle {Real}.
Arguments x1 {Real}.
Arguments y1 {Real}.
Arguments x2 {Real}.
Arguments y2 {Real}.
Arguments x3 {Real}.
Arguments y3 {Real}.
Arguments xc {Real}.
Arguments yc {Real}.
Arguments circumradius {Real}.
Arguments area {Real}.
Arguments aspect_ratio {Real}.

Definition new_triangle {Real : Type} (x1_ y1_ x2_ y2_ x3_ y3_ : Real) : triangle Real :=
  mk_triangle x1_ y1_ x2_ y2_ x3_ y3_ None None None None None.

Section WithReal.
Context {Real : Type} {ops : RealOps Real}.
Local Open Scope real_scope.

(** The loop [for i < u.size(): acc += squared_distance[i] * w[i]]. *)
Fixpoint accumulate (squared_distance w : list Real) (acc : Real) : Real :=
  match squared_distance, w with
  | s :: squared_distance', wi :: w' => accumulate squared_distance' w' (acc + s * wi)
  | _, _ => acc
  end.

(** [tri_mesh::circum]; the triangle passed by reference is returned updated. *)
Definition circum (t : triangle Real) : triangle Real :=
  let u0 := x3 t - x2 t in let u1 := x1 t - x3 t in let u2 := x2 t - x1 t in
  let v0 := y3 t - y2 t in let v1 := y1 t - y3 t in let v2 := y2 t - y1 t in
  let t_area := (u0 * v1 - u1 * v0) / of_int 2 in
  if fp_zero t_area then
    mk_triangle (x1 t) (y1 t) (x2 t) (y2 t) (x3 t) (y3 t)
                (xc t) (yc t) (circumradius t) (Some t_area) (Some (of_int 0))
  else
    let squared_distance :=
      [x1 t * x1 t + y1 t * y1 t; x2 t * x2 t + y2 t * y2 t; x3 t * x3 t + y3 t * y3 t] in
    (* Compute factors of t.xc and t.yc *)
    let fx := accumulate squared_distance [v0; v1; v2] (of_int 0) in
    let fy := accumulate squared_distance [u0; u1; u2] (of_int 0) in
    let t_xc := fx / (of_int 4 * t_area) in
    let t_yc := fy / (of_int 4 * t_area) in
    let t_circumradius :=
      rsqrt ((t_xc - x1 t) * (t_xc - x1 t) + (t_yc - y1 t) * (t_yc - y1 t)) in
    (* Compute the squared edge lengths and aspect ratio *)
    let sv0 := u0 * u0 + v0 * v0 in
    let sv1 := u1 * u1 + v1 * v1 in
    let sv2 := u2 * u2 + v2 * v2 in
    let t_aspect_ratio :=
      of_int 2 * rabs t_area / (rsqrt sv0 + rsqrt sv1 + rsqrt sv2 * t_circumradius) in
    mk_triangle (x1 t) (y1 t) (x2 t) (y2 t) (x3 t) (y3 t)
                (Some t_xc) (Some t_yc) (Some t_circumradius) (Some t_area)
                (Some t_aspect_ratio).

End WithReal.

Local Open Scope R_scope.

(** The length of the edge from (xa, ya) to (xb, yb). *)
Definition edge_length (xa ya xb yb : R) : R :=
  sqrt ((xb - xa) * (xb - xa) + (yb - ya) * (yb - ya)).

Definition perimeter (t : triangle R) : R :=
  edge_length (x2 t) (y2 t) (x3 t) (y3 t) +
  edge_length (x3 t) (y3 t) (x1 t) (y1 t) +
  edge_length (x1 t) (y1 t) (x2 t) (y2 t).

(** The aspect ratio in the words of the specification: twice the absolute
    area over the product of the sum of the edge lengths and the circumradius,
    with the area and circumradius that [circum] stores. *)
Definition spec_aspect_ratio (t : triangle R) : option R :=
  match area (circum t), circumradius (circum t) with
  | Some a, Some r => Some (2 * Rabs a / (perimeter t * r))
  | _, _ => None
  end.

(** The right triangle with legs 30 and 40, over the reals and in binary64. *)
Definition big_right_triangle : triangle R := new_triangle 0 0 30 0 0 40.

Definition big_right_triangle64 : triangle float :=
  new_triangle 0%float 0%float 30%float 0%float 0%float 40%float.

(** Three collinear vertices. *)
Definition flat_triangle : triangle R := new_triangle 0 0 1 1 2 2.

Definition flat_triangle64 : triangle float :=
  new_triangle 0%float 0%float 1%float 1%float 2%float 2%float.

End Geometry.

(** ** Polygon area ([triangulation.hpp]) *)

Module Polygon.

Section WithReal.
Context {Real : Type} {ops : RealOps Real}.
Local Open Scope real_scope.

(** The [while (nodes_begin != nodes_end)] loop; [rest] is the range
    [nodes_begin, nodes_end) still to visit.  Line 37 assigns the iterator
    itself to [node_2]; the element it designates is the only reading under
    which the subscripts of the next statement are node indexes. *)
Fixpoint polygonal_area_loop (x y : list Real) (rest : list Z) (node_2 : Z) (area : Real)
  : result Real :=
  match rest with
  | [] => Ok area
  | n :: rest' =>
      let node_1 := node_2 in
      let node_2 := n in
      x_2 <- vget x node_2 ;;
      x_1 <- vget x node_1 ;;
      y_1 <- vget y node_1 ;;
      y_2 <- vget y node_2 ;;
      polygonal_area_loop x y rest' node_2 (area + (x_2 - x_1) * (y_1 + y_2))
  end.

(** The elements of the valid iterator range [first, last) of a sequence. *)
Definition range {A : Type} (storage : list A) (first last : nat) : list A :=
  firstn (last - first) (skipn first storage).

(** [polygonal_area] on iterators (lines 20-46).  [x] and [y] are the
    sequences starting at [x_begin] and [y_begin]; the node range is given by
    the sequence [storage] it lies in and the positions [nodes_begin <=
    nodes_end] of its two iterators.  [*nodes_end] reads the position after
    the last node of the range. *)
Definition polygonal_area_iter (x y : list Real) (storage : list Z)
  (nodes_begin nodes_end : nat) : result Real :=
  let node_length := (Z.of_nat nodes_end - Z.of_nat nodes_begin)%Z in
  if (node_length <=? 3)%Z then Ok (of_int 0)
  else
    node_2 <- vget storage (Z.of_nat nodes_end) ;;
    area <- polygonal_area_loop x y (range storage nodes_begin nodes_end) node_2
              (of_int 0) ;;
    Ok (- area / of_int 2).

(** [polygonal_area] on containers (lines 48-54): the node range is the whole
    container, from [cbegin] to [cend]. *)
Definition polygonal_area (x y : list Real) (nodes : list Z) : result Real :=
  polygonal_area_iter x y nodes 0 (length nodes).

End WithReal.

Local Open Scope R_scope.

(** Coordinates of a node, outside the outcome monad (0 when out of range). *)
Definition coord (c : list R) (n : Z) : R := nth (Z.to_nat n) c 0.

(** Twice the signed area of the closed polygon through [first :: rest] by the
    shoelace formula, counterclockwise positive; [prev] is the node before
    [rest], [first] the node the polygon closes on. *)
Fixpoint shoelace_from (x y : list R) (prev : Z) (rest : list Z) (first : Z) : R :=
  match rest with
  | [] => coord x prev * coord y first - coord x first * coord y prev
  | n :: rest' =>
      coord x prev * coord y n - coord x n * coord y prev
      + shoelace_from x y n rest' first
  end.

Definition shoelace2 (x y : list R) (nodes : list Z) : R :=
  match nodes with
  | [] => 0
  | first :: rest => shoelace_from x y first rest first
  end.

(** A node index that designates an element of both coordinate sequences. *)
Definition in_bounds {Real : Type} (x y : list Real) (n : Z) : Prop :=
  (0 <= n < Z.of_nat (length x))%Z /\ (0 <= n < Z.of_nat (length y))%Z.

Definition unit_square_x : list R := [0; 1; 1; 0].
Definition unit_square_y : list R := [0; 0; 1; 1].
Definition unit_square_nodes : list Z := [0; 1; 2; 3]%Z.

Definition unit_square_x64 : list float := [0; 1; 1; 0]%float.
Definition unit_square_y64 : list float := [0; 0; 1; 1]%float.

End Polygon.

(** ** The mesh ([tri_mesh.hpp]) *)

Module Mesh.

(** [struct nodal_index] (its members are declared [Real] in the source). *)
Record nodal_index (Real : Type) : Type := mk_nodal_index {
  i1 : Real;
  i2 : Real;
  i3 : Real
}.

(** The data members of [class tri_mesh].  [x_], [y_] stand for the ranges
    [x_begin_, x_end_) and [y_begin_, y_end_); the adjacency vector [list] is
    named [list_] here. *)
Record tri_mesh (Real : Type) : Type := mk_tri_mesh {
  x_ : list Real;
  y_ : list Real;
  nodes_ : list Z;
  node_count_ : Z;
  boundary_node_count_ : option Z;
  arc_count_ : option Z;
  triangle_count_ : option Z;
  list_ : list Z;
  lptr : list Z;
  lend : list Z;
  lnew : option Z
}.

Arguments mk_tri_mesh {Real}.
Arguments x_ {Real}.
Arguments y_ {Real}.
Arguments nodes_ {Real}.
Arguments node_count_ {Real}.
Arguments boundary_node_count_ {Real}.
Arguments arc_count_ {Real}.
Arguments triangle_count_ {Real}.
Arguments list_ {Real}.
Arguments lptr {Real}.
Arguments lend {Real}.
Arguments lnew {Real}.

Definition newline : string := String (ascii_of_nat 10) EmptyString.

Definition length_mismatch : exception :=
  mk_exception logic_error ("X and Y must be the same length." ++ newline).

Definition too_few_nodes : exception :=
  mk_exception domain_error
    ("X and Y must have at least three nodes for meshing." ++ newline).

Definition colinear_nodes : exception :=
  mk_exception logic_error ("The first three nodes must not be co-linear." ++ newline).

(** The three adjacency vectors while the constructor fills them. *)
Record adjacency : Type := mk_adjacency {
  a_list : list Z;
  a_lptr : list Z;
  a_lend : list Z
}.

Inductive target : Type := LIST | LPTR | LEND.

(** One assignment [list[i] = v], [lptr[i] = v] or [lend[i] = v]. *)
Definition assign (a : adjacency) (w : target * Z * Z) : result adjacency :=
  let '(t, i, v) := w in
  match t with
  | LIST => l <- vset (a_list a) i v ;; Ok (mk_adjacency l (a_lptr a) (a_lend a))
  | LPTR => p <- vset (a_lptr a) i v ;; Ok (mk_adjacency (a_list a) p (a_lend a))
  | LEND => e <- vset (a_lend a) i v ;; Ok (mk_adjacency (a_list a) (a_lptr a) e)
  end.

(** A block of assignments, executed in order. *)
Fixpoint assign_all (a : adjacency) (ws : list (target * Z * Z)) : result adjacency :=
  match ws with
  | [] => Ok a
  | w :: ws' => a' <- assign a w ;; assign_all a' ws'
  end.

(** Lines 136-152: the initial triangle is 1, 3, 2. *)
Definition seed_132 : list (target * Z * Z) :=
  [ (LIST, 0, 3); (LPTR, 0, 2); (LIST, 1, -2); (LPTR, 1, 1); (LEND, 0, 2);
    (LIST, 2, 1); (LPTR, 2, 4); (LIST, 3, -3); (LPTR, 3, 3); (LEND, 1, 4);
    (LIST, 4, 2); (LPTR, 4, 6); (LIST, 5, -1); (LPTR, 5, 5); (LEND, 2, 6) ].

(** Lines 159-175: the initial triangle is 1, 2, 3. *)
Definition seed_123 : list (target * Z * Z) :=
  [ (LIST, 0, 2); (LPTR, 0, 2); (LIST, 1, -3); (LPTR, 1, 1); (LEND, 0, 2);
    (LIST, 2, 3); (LPTR, 2, 4); (LIST, 3, -1); (LPTR, 3, 3); (LEND, 1, 4);
    (LIST, 4, 1); (LPTR, 4, 6); (LIST, 5, -2); (LPTR, 5, 5); (LEND, 2, 6) ].

(** The adjacency vectors followed by further slots. *)
Definition adjacency_app (a : adjacency) (t1 t2 t3 : list Z) : adjacency :=
  mk_adjacency (a_list a ++ t1) (a_lptr a ++ t2) (a_lend a ++ t3).

(** The six entries of [list] after the seed, by the outcome of the first
    orientation test. *)
Definition seed_entries (counterclockwise : bool) : list Z :=
  if counterclockwise then [2; -3; 3; -1; 1; -2] else [3; -2; 1; -3; 2; -1].

Section WithReal.
Context {Real : Type} {ops : RealOps Real}.

(** The constructor [tri_mesh::tri_mesh].  Its body ends after the seed: the
    members [nodes_] (default-constructed), [boundary_node_count_],
    [arc_count_], [triangle_count_] and [lnew] are not assigned. *)
Definition tri_mesh_ctor (x y : list Real) : result (tri_mesh Real) :=
  (* Validate inputs *)
  let node_count := Z.of_nat (length x) in
  if negb (node_count =? Z.of_nat (length y)) then Throw length_mismatch
  else if node_count <? 3 then Throw too_few_nodes
  else
    (* Store the first triangle *)
    let a := mk_adjacency (resize_empty 0 (length x)) (resize_empty 0 (length x))
                          (resize_empty 0 (length x)) in
    x0 <- vget x 0 ;; y0 <- vget y 0 ;;
    x1 <- vget x 1 ;; y1 <- vget y 1 ;;
    x2 <- vget x 2 ;; y2 <- vget y 2 ;;
    let done (a : adjacency) : tri_mesh Real :=
      mk_tri_mesh x y [] node_count None None None (a_list a) (a_lptr a) (a_lend a) None in
    if negb (left x0 y0 x1 y1 x2 y2) then
      a <- assign_all a seed_132 ;; Ok (done a)
    else if negb (left x1 y1 x0 y0 x2 y2) then
      a <- assign_all a seed_123 ;; Ok (done a)
    else
      (* The first three nodes are co-linear *)
      Throw colinear_nodes.

End WithReal.

Section AnyReal.
Context {Real : Type}.

(** [tri_mesh::find_triangle]: the body sets up the locals of the search and
    ends; no statement returns a [nodal_index]. *)
Definition find_triangle (m : tri_mesh Real) (index : Z) (x y : Real)
  : result (nodal_index Real) :=
  let xp := x in
  let yp := y in
  (* Set n1 = nf and nl to the first and last neighbors of n0. *)
  let n0 := index in
  lp <- vget (lend m) index ;;
  nl <- vget (list_ m) lp ;;
  lp <- vget (lptr m) lp ;;
  nf <- vget (list_ m) lp ;;
  let n1 := nf in
  let np := nl in
  let npp := nf in
  Undefined MissingReturn.

(** [tri_mesh::add_node]: an empty body in a function returning [std::size_t]. *)
Definition add_node (m : tri_mesh Real) (index : Z) (x y : Real)
  (search_index node_location : Z) : result (tri_mesh Real * Z) :=
  Undefined MissingReturn.

(** [while(list[start_node] > 0) ++start_node;] *)
Fixpoint skip_positive (fuel : nat) (m : tri_mesh Real) (start_node : Z) : result Z :=
  match fuel with
  | O => OutOfFuel
  | S fuel' =>
      v <- vget (list_ m) start_node ;;
      if 0 <? v then skip_positive fuel' m (to_size_t (start_node + 1))
      else Ok start_node
  end.

(** [lp = lend[current_node]; current_node = list[lp];] with the conversion of
    the [long] entry to [std::size_t]. *)
Definition next_node (m : tri_mesh Real) (current_node : Z) : result Z :=
  lp <- vget (lend m) current_node ;;
  v <- vget (list_ m) lp ;;
  Ok (to_size_t v).

(** [while(start_node != current_node) { ++k; nodes_.push_back(current_node); ... }] *)
Fixpoint walk_boundary (fuel : nat) (heap : Z) (m : tri_mesh Real)
  (start_node current_node k : Z) (nodes : list Z) : result (Z * list Z) :=
  match fuel with
  | O => OutOfFuel
  | S fuel' =>
      if start_node =? current_node then Ok (k, nodes)
      else
        let k := to_size_t (k + 1) in
        nodes <- push_back heap nodes current_node ;;
        current_node <- next_node m current_node ;;
        walk_boundary fuel' heap m start_node current_node k nodes
  end.

(** [tri_mesh::build_nodes] *)
Definition build_nodes (fuel : nat) (heap : Z) (m : tri_mesh Real)
  : result (tri_mesh Real) :=
  let start_node := 0 in
  lp <- vget (lend m) start_node ;;
  start_node <- skip_positive fuel m start_node ;;
  nodes <- push_back heap (nodes_ m) start_node ;;
  let k := 1 in
  let current_node := start_node in
  (* Traverse the boundary in counter-clockwise order *)
  current_node <- next_node m current_node ;;
  r <- walk_boundary fuel heap m start_node current_node k nodes ;;
  let '(k, nodes) := r in
  let boundary_node_count := k in
  let triangle_count := to_size_t (2 * node_count_ m - boundary_node_count - 2) in
  let arc_count := to_size_t (triangle_count + node_count_ m - 1) in
  Ok (mk_tri_mesh (x_ m) (y_ m) nodes (node_count_ m) (Some boundary_node_count)
                  (Some arc_count) (Some triangle_count)
                  (list_ m) (lptr m) (lend m) (lnew m)).

(** The closed walk the boundary loop follows: [hull_path m start c rest] holds
    when, from [c], repeated [next_node] visits exactly the nodes [rest], none
    of them [start], and then arrives at [start]. *)
Inductive hull_path (m : tri_mesh Real) (start : Z) : Z -> list Z -> Prop :=
| hull_path_closed : hull_path m start start []
| hull_path_step (c c' : Z) (rest : list Z) :
    c <> start ->
    next_node m c = Ok c' ->
    hull_path m start c' rest ->
    hull_path m start c (c :: rest).


End AnyReal.

(** ** Sample inputs *)

Definition six_x : list R := [0; 1; 0; 2; 2; 0]%R.
Definition six_y : list R := [0; 0; 1; 0; 2; 2]%R.

(** The state the constructor leaves for [six_x], [six_y]. *)
Definition six_seed : tri_mesh R :=
  mk_tri_mesh six_x six_y [] 6 None None None
    [2; -3; 3; -1; 1; -2] [2; 1; 4; 3; 6; 5] [2; 4; 6; 0; 0; 0] None.

(** The same six points and state in binary64. *)
Definition six_x64 : list float := [0; 1; 0; 2; 2; 0]%float.
Definition six_y64 : list float := [0; 0; 1; 0; 2; 2]%float.

Definition six_seed64 : tri_mesh float :=
  mk_tri_mesh six_x64 six_y64 [] 6 None None None
    [2; -3; 3; -1; 1; -2] [2; 1; 4; 3; 6; 5] [2; 4; 6; 0; 0; 0] None.

(** The state [build_nodes] leaves when run on [six_seed]. *)
Definition six_built : tri_mesh R :=
  mk_tri_mesh six_x six_y [1] 6 (Some 1) (Some 14) (Some 9)
    [2; -3; 3; -1; 1; -2] [2; 1; 4; 3; 6; 5] [2; 4; 6; 0; 0; 0] None.

(** Seven points whose first triple is clockwise, and the state the
    constructor leaves for them. *)
Definition seven_x : list R := [0; 0; 1; 2; 2; 0; 3]%R.
Definition seven_y : list R := [0; 1; 0; 0; 2; 2; 3]%R.

Definition seven_seed : tri_mesh R :=
  mk_tri_mesh seven_x seven_y [] 7 None None None
    [3; -2; 1; -3; 2; -1; 0] [2; 1; 4; 3; 6; 5; 0] [2; 4; 6; 0; 0; 0; 0] None.

(** Six points whose first triple is clockwise, and the state the constructor
    leaves for them. *)
Definition six_cw_x : list R := [0; 0; 1; 2; 2; 0]%R.
Definition six_cw_y : list R := [0; 1; 0; 0; 2; 2]%R.

Definition six_cw_seed : tri_mesh R :=
  mk_tri_mesh six_cw_x six_cw_y [] 6 None None None
    [3; -2; 1; -3; 2; -1] [2; 1; 4; 3; 6; 5] [2; 4; 6; 0; 0; 0] None.


(** A three-node state whose boundary walk is 0 -> 1 -> 2 -> 0. *)
Definition ring_mesh : tri_mesh R :=
  mk_tri_mesh [0; 1; 0]%R [0; 0; 1]%R [] 3 None None None
    [0; 1; 2] [0; 0; 0] [1; 2; 0] None.

(** The state [build_nodes] leaves when run on [ring_mesh]. *)
Definition ring_built : tri_mesh R :=
  mk_tri_mesh [0; 1; 0]%R [0; 0; 1]%R [0; 1; 2] 3 (Some 3) (Some 3) (Some 1)
    [0; 1; 2] [0; 0; 0] [1; 2; 0] None.

(** A state whose [list] holds positive entries only. *)
Definition unmarked_mesh : tri_mesh R :=
  mk_tri_mesh [0; 1; 0]%R [0; 0; 1]%R [] 3 None None None
    [2; 3; 1] [0; 0; 0] [0; 1; 2] None.


End Mesh.

(** * Properties *)

(** ** Arithmetic of the two instances *)

Ltac simpl_exact :=
  cbn [of_int radd rsub rmul rdiv ropp rabs rsqrt rgeb fp_zero exact_ops] in *.

Ltac simpl_binary64 :=
  cbn [of_int radd rsub rmul rdiv ropp rabs rsqrt rgeb fp_zero binary64_ops] in *.

Lemma Rgeb_true_iff (a b : R) : Rgeb a b = true <-> (b <= a)%R.
Proof.
  unfold Rgeb. destruct (Rle_dec b a) as [H | H]; split; intro K; easy.
Qed.

Lemma Rgeb_false_iff (a b : R) : Rgeb a b = false <-> (a < b)%R.
Proof.
  unfold Rgeb. destruct (Rle_dec b a) as [H | H]; split; intro K; try easy; lra.
Qed.

(** A finite [double] minus itself is +0. *)
Lemma sub_self_binary64 (x : float) :
  finite64 x = true -> Prim2SF (x - x)%float = S754_zero false.
Proof.
  unfold finite64. intro H. rewrite sub_spec. unfold SF64sub, SFsub.
  destruct (Prim2SF x) as [s | s | | s m e]; try discriminate.
  - destruct s; reflexivity.
  - cbv zeta. rewrite Z.sub_diag. reflexivity.
Qed.

(** The product of a zero and a finite [double] is a zero. *)
Lemma mul_zero_l_binary64 (z d : float) (s : bool) :
  Prim2SF z = S754_zero s -> finite64 d = true ->
  exists s', Prim2SF (z * d)%float = S754_zero s'.
Proof.
  unfold finite64. intros Hz Hd. rewrite mul_spec, Hz. unfold SF64mul, SFmul.
  destruct (Prim2SF d) as [sd | sd | | sd m e]; try discriminate; eexists; reflexivity.
Qed.

Lemma mul_zero_r_binary64 (z d : float) (s : bool) :
  Prim2SF z = S754_zero s -> finite64 d = true ->
  exists s', Prim2SF (d * z)%float = S754_zero s'.
Proof.
  unfold finite64. intros Hz Hd. rewrite mul_spec, Hz. unfold SF64mul, SFmul.
  destruct (Prim2SF d) as [sd | sd | | sd m e]; try discriminate; eexists; reflexivity.
Qed.


(** ** Geometric predicates *)

Lemma left_true_iff (x1 y1 x2 y2 x0 y0 : R) :
  left x1 y1 x2 y2 x0 y0 = true <->
  ((x0 - x1) * (y2 - y1) <= (x2 - x1) * (y0 - y1))%R.
Proof. unfold left. cbv zeta. simpl_exact. apply Rgeb_true_iff. Qed.

Lemma left_false_iff (x1 y1 x2 y2 x0 y0 : R) :
  left x1 y1 x2 y2 x0 y0 = false <->
  ((x2 - x1) * (y0 - y1) < (x0 - x1) * (y2 - y1))%R.
Proof. unfold left. cbv zeta. simpl_exact. apply Rgeb_false_iff. Qed.




(** C10, refuted as stated.  In binary64, with P = (DBL_MAX, 0) and
    P0 = (-DBL_MAX, 1), all four coordinates finite, left(P, P, P0) is false:
    x0 - x overflows to minus infinity and its product with the zero y - y is
    a NaN. *)
Lemma left_degenerate_segment_fails_in_binary64 :
  finite64 0x1.fffffffffffffp1023 = true /\
  finite64 (-0x1.fffffffffffffp1023) = true /\
  finite64 0 = true /\ finite64 1 = true /\
  left 0x1.fffffffffffffp1023%float 0%float 0x1.fffffffffffffp1023%float 0%float
       (-0x1.fffffffffffffp1023)%float 1%float = false.
Proof. repeat split; vm_compute; reflexivity. Qed.

(** C10, as amended.  When the two endpoints of the reference line coincide,
    [left] answers [true] for every query point in an instantiation without
    rounding, and in binary64 whenever the coordinates of P are finite and the
    differences x0 - x and y0 - y are finite (no overflow, no NaN). *)
Theorem left_degenerate_segment :
  (forall x y x0 y0 : R, left x y x y x0 y0 = true) /\
  (forall x y x0 y0 : float,
      finite64 x = true -> finite64 y = true ->
      finite64 (x0 - x) = true -> finite64 (y0 - y) = true ->
      left x y x y x0 y0 = true).
Proof.
  split.
  - intros x y x0 y0. apply left_true_iff. nra.
  - intros x y x0 y0 Hx Hy Hdx Hdy.
    unfold left. cbv zeta. simpl_binary64.
    destruct (mul_zero_l_binary64 (x - x) (y0 - y) false
                (sub_self_binary64 x Hx) Hdy) as [s1 H1].
    destruct (mul_zero_r_binary64 (y - y) (x0 - x) false
                (sub_self_binary64 y Hy) Hdx) as [s2 H2].
    rewrite leb_spec, H1, H2. reflexivity.
Qed.

Lemma left_degenerate_segment_witness :
  left 1%float 2%float 1%float 2%float 3%float 5%float = true.
Proof.
  apply (proj2 left_degenerate_segment); vm_compute; reflexivity.
Defined.


(** ** Triangle geometry *)

Lemma fp_zero_exact_true_iff (a : R) : fp_zero a = true <-> a = 0%R.
Proof.
  simpl_exact. destruct (Req_dec_T a 0); split; intro K; easy.
Qed.

Lemma fp_zero_exact_false_iff (a : R) : fp_zero a = false <-> a <> 0%R.
Proof.
  simpl_exact. destruct (Req_dec_T a 0); split; intro K; easy.
Qed.

(** [circum] always stores the area, whichever branch it takes. *)
Lemma circum_area {Real : Type} {ops : RealOps Real} (t : Geometry.triangle Real) :
  Geometry.area (Geometry.circum t) =
  Some (((Geometry.x3 t - Geometry.x2 t) * (Geometry.y1 t - Geometry.y3 t)
         - (Geometry.x1 t - Geometry.x3 t) * (Geometry.y3 t - Geometry.y2 t))
        / of_int 2)%real.
Proof.
  unfold Geometry.circum. cbv zeta.
  destruct (fp_zero _); reflexivity.
Qed.

(** C8.  For every numeric type: when the signed area that [circum] computes
    is classified as zero, it stores aspect ratio 0 and returns with the
    circumcenter and the circumradius untouched (never assigned for a freshly
    constructed triangle); it does not fail. *)
Theorem circum_zero_area_sentinel {Real : Type} {ops : RealOps Real}
  (t : Geometry.triangle Real) (a : Real) :
  Geometry.area (Geometry.circum t) = Some a ->
  fp_zero a = true ->
  Geometry.aspect_ratio (Geometry.circum t) = Some (of_int 0) /\
  Geometry.xc (Geometry.circum t) = Geometry.xc t /\
  Geometry.yc (Geometry.circum t) = Geometry.yc t /\
  Geometry.circumradius (Geometry.circum t) = Geometry.circumradius t.
Proof.
  rewrite circum_area. intros Harea Hzero. injection Harea as Harea. subst a.
  unfold Geometry.circum. cbv zeta. rewrite Hzero. cbn.
  repeat split; reflexivity.
Qed.

Lemma circum_zero_area_sentinel_witness :
  (Geometry.area (Geometry.circum Geometry.flat_triangle) = Some 0%R /\
   Geometry.aspect_ratio (Geometry.circum Geometry.flat_triangle) = Some 0%R /\
   Geometry.xc (Geometry.circum Geometry.flat_triangle) = None /\
   Geometry.yc (Geometry.circum Geometry.flat_triangle) = None /\
   Geometry.circumradius (Geometry.circum Geometry.flat_triangle) = None) /\
  (Geometry.area (Geometry.circum Geometry.flat_triangle64) = Some 0%float /\
   Geometry.aspect_ratio (Geometry.circum Geometry.flat_triangle64) = Some 0%float /\
   Geometry.xc (Geometry.circum Geometry.flat_triangle64) = None /\
   Geometry.yc (Geometry.circum Geometry.flat_triangle64) = None /\
   Geometry.circumradius (Geometry.circum Geometry.flat_triangle64) = None).
Proof.
  split.
  - assert (H : Geometry.area (Geometry.circum Geometry.flat_triangle) = Some 0%R).
    { rewrite circum_area. cbn. f_equal. lra. }
    split; [exact H |].
    apply (circum_zero_area_sentinel Geometry.flat_triangle 0%R H).
    apply fp_zero_exact_true_iff. reflexivity.
  - assert (H : Geometry.area (Geometry.circum Geometry.flat_triangle64) = Some 0%float)
      by (vm_compute; reflexivity).
    split; [exact H |].
    apply (circum_zero_area_sentinel Geometry.flat_triangle64 0%float H).
    vm_compute. reflexivity.
Defined.

Lemma sqrt_of_square (r s : R) : (0 <= s)%R -> (s * s = r)%R -> sqrt r = s.
Proof. intros Hs Hr. subst r. apply sqrt_square. exact Hs. Qed.

(** The state [circum] leaves for the right triangle (0,0), (30,0), (0,40). *)
Lemma circum_big_right_triangle :
  Geometry.circum Geometry.big_right_triangle =
  Geometry.mk_triangle 0%R 0%R 30%R 0%R 0%R 40%R
    (Some (-15)%R) (Some 20%R) (Some 25%R) (Some 600%R) (Some (10 / 7)%R).
Proof.
  unfold Geometry.circum, Geometry.big_right_triangle, Geometry.new_triangle.
  cbn [Geometry.x1 Geometry.y1 Geometry.x2 Geometry.y2 Geometry.x3 Geometry.y3
       Geometry.xc Geometry.yc Geometry.circumradius Geometry.accumulate].
  simpl_exact.
  destruct (Req_dec_T (((0 - 30) * (0 - 40) - (0 - 0) * (40 - 0)) / 2) 0) as [Hz | Hz];
    [exfalso; lra |].
  repeat match goal with
         | |- context [sqrt ?e] =>
             first [ rewrite (sqrt_of_square e 25) by (lra || field)
                   | rewrite (sqrt_of_square e 30) by (lra || field)
                   | rewrite (sqrt_of_square e 40) by (lra || field)
                   | rewrite (sqrt_of_square e 50) by (lra || field) ]
         end.
  rewrite Rabs_pos_eq by lra.
  f_equal; f_equal; field.
Qed.

Lemma perimeter_big_right_triangle :
  Geometry.perimeter Geometry.big_right_triangle = 120%R.
Proof.
  unfold Geometry.perimeter, Geometry.edge_length, Geometry.big_right_triangle.
  cbn -[sqrt Rmult Rplus Rminus].
  repeat match goal with
         | |- context [sqrt ?e] =>
             first [ rewrite (sqrt_of_square e 30) by lra
                   | rewrite (sqrt_of_square e 40) by lra
                   | rewrite (sqrt_of_square e 50) by lra ]
         end.
  lra.
Qed.

(** C7.  On the right triangle (0,0), (30,0), (0,40), of area 600, edge lengths
    50, 40, 30 and circumradius 25, [circum] stores the aspect ratio
    1200 / (50 + 40 + 30 * 25) = 10/7, which is above 1, whereas twice the
    absolute area over the product of the perimeter and the circumradius is
    1200 / (120 * 25) = 2/5; binary64 stores the [double] nearest to 10/7. *)
Theorem circum_aspect_ratio_exceeds_one :
  Geometry.aspect_ratio (Geometry.circum Geometry.big_right_triangle) = Some (10 / 7)%R /\
  Geometry.spec_aspect_ratio Geometry.big_right_triangle = Some (2 / 5)%R /\
  (1 < 10 / 7)%R /\
  Geometry.aspect_ratio (Geometry.circum Geometry.big_right_triangle64)
  = Some (10 / 7)%float /\
  (1 <? 10 / 7)%float = true.
Proof.
  split; [| split; [| split; [| split]]].
  - rewrite circum_big_right_triangle. reflexivity.
  - unfold Geometry.spec_aspect_ratio.
    rewrite circum_big_right_triangle, perimeter_big_right_triangle.
    cbn -[Rabs Rdiv Rmult]. rewrite Rabs_pos_eq by lra. f_equal. field.
  - lra.
  - vm_compute. reflexivity.
  - vm_compute. reflexivity.
Qed.


(** ** Vectors *)

Lemma vget_in_range {A : Type} (v : list A) (i : Z) (d : A) :
  0 <= i < Z.of_nat (length v) -> vget v i = Ok (nth (Z.to_nat i) v d).
Proof.
  intros [Hlo Hhi]. unfold vget.
  replace (0 <=? i) with true by (symmetry; apply Z.leb_le; lia).
  replace (i <? Z.of_nat (length v)) with true by (symmetry; apply Z.ltb_lt; lia).
  cbn. destruct (nth_error v (Z.to_nat i)) as [a |] eqn:E.
  - f_equal. symmetry. apply nth_error_nth. exact E.
  - apply nth_error_None in E. lia.
Qed.

Lemma vget_out_of_range {A : Type} (v : list A) (i : Z) :
  Z.of_nat (length v) <= i -> vget v i = Undefined OutOfRange.
Proof.
  intro H. unfold vget.
  replace (i <? Z.of_nat (length v)) with false by (symmetry; apply Z.ltb_ge; lia).
  rewrite andb_false_r. reflexivity.
Qed.

Lemma vget_ok_range {A : Type} (v : list A) (i : Z) (a : A) :
  vget v i = Ok a -> 0 <= i < Z.of_nat (length v).
Proof.
  unfold vget. destruct (0 <=? i) eqn:E1; destruct (i <? Z.of_nat (length v)) eqn:E2;
    cbn; try discriminate.
  intros _. apply Z.leb_le in E1. apply Z.ltb_lt in E2. lia.
Qed.

Lemma vget_no_throw {A : Type} (v : list A) (i : Z) (e : exception) :
  vget v i <> Throw e.
Proof.
  unfold vget. destruct (_ && _); [destruct (nth_error _ _) |]; discriminate.
Qed.

Lemma vget_result {A : Type} (v : list A) (i : Z) :
  (exists a, vget v i = Ok a) \/ vget v i = Undefined OutOfRange.
Proof.
  unfold vget. destruct (_ && _); [destruct (nth_error _ _) |]; eauto.
Qed.

Lemma last_cons_default {A : Type} (l : list A) :
  forall a d : A, last (a :: l) d = last l a.
Proof.
  induction l as [| b l IH]; intros a d; [reflexivity |].
  change (last (a :: b :: l) d) with (last (b :: l) d).
  rewrite (IH b d), (IH b a). reflexivity.
Qed.

Lemma last_in_cons {A : Type} (l : list A) : forall d : A, In (last l d) (d :: l).
Proof.
  induction l as [| a l IH]; intro d; [left; reflexivity |].
  right. rewrite last_cons_default. apply IH.
Qed.

(** ** Polygon area *)

(** In exact arithmetic the loop of [polygonal_area] adds up the trapezoid
    terms, and these telescope against the shoelace terms of the same path. *)
Lemma polygonal_area_loop_shoelace (x y : list R) (rest : list Z) :
  forall (prev first : Z) (acc : R),
    Polygon.in_bounds x y prev -> Forall (Polygon.in_bounds x y) rest ->
    exists a,
      Polygon.polygonal_area_loop x y rest prev acc = Ok a /\
      (a - acc + Polygon.shoelace_from x y prev rest first =
       Polygon.coord x (last rest prev) * Polygon.coord y first
       - Polygon.coord x first * Polygon.coord y (last rest prev)
       + Polygon.coord x (last rest prev) * Polygon.coord y (last rest prev)
       - Polygon.coord x prev * Polygon.coord y prev)%R.
Proof.
  induction rest as [| n rest IH]; intros prev first acc Hprev Hrest.
  - exists acc. split; [reflexivity |]. cbn. lra.
  - inversion Hrest as [| ? ? Hn Hrest']; subst.
    destruct Hprev as [Hpx Hpy]. destruct (Hn) as [Hnx Hny].
    cbn [Polygon.polygonal_area_loop].
    rewrite (vget_in_range x n 0%R Hnx), (vget_in_range x prev 0%R Hpx),
            (vget_in_range y prev 0%R Hpy), (vget_in_range y n 0%R Hny).
    cbn [bind]. simpl_exact.
    destruct (IH n first
                (acc + (nth (Z.to_nat n) x 0 - nth (Z.to_nat prev) x 0)
                       * (nth (Z.to_nat prev) y 0 + nth (Z.to_nat n) y 0))%R
                Hn Hrest') as [a [Ha Hsum]].
    exists a. split; [exact Ha |].
    cbn [Polygon.shoelace_from].
    rewrite last_cons_default.
    unfold Polygon.coord in *. lra.
Qed.

(** Started from the last node, as a closed polygon requires, the loop yields
    minus twice the counterclockwise-positive signed area. *)
Lemma polygonal_area_loop_closed (x y : list R) (first : Z) (tail : list Z) :
  Forall (Polygon.in_bounds x y) (first :: tail) ->
  exists a,
    Polygon.polygonal_area_loop x y (first :: tail) (last tail first) 0%R = Ok a /\
    (- a / 2 = Polygon.shoelace2 x y (first :: tail) / 2)%R.
Proof.
  intro Hall.
  assert (Hlast : Polygon.in_bounds x y (last tail first)).
  { rewrite Forall_forall in Hall. apply Hall. apply last_in_cons. }
  destruct (polygonal_area_loop_shoelace x y (first :: tail) (last tail first) first 0%R
              Hlast Hall) as [a [Ha Hsum]].
  exists a. split; [exact Ha |].
  rewrite last_cons_default in Hsum.
  inversion Hall as [| ? ? Hf Htail]; subst.
  cbn [Polygon.polygonal_area_loop] in Ha.
  destruct Hf as [Hfx Hfy]. destruct Hlast as [Hlx Hly].
  rewrite (vget_in_range x first 0%R Hfx), (vget_in_range x _ 0%R Hlx),
          (vget_in_range y _ 0%R Hly), (vget_in_range y first 0%R Hfy) in Ha.
  cbn [bind] in Ha. simpl_exact.
  destruct (polygonal_area_loop_shoelace x y tail first first
              (0 + (nth (Z.to_nat first) x 0 - nth (Z.to_nat (last tail first)) x 0)
                   * (nth (Z.to_nat (last tail first)) y 0 + nth (Z.to_nat first) y 0))%R
              (conj Hfx Hfy) Htail) as [a' [Ha' Hsum']].
  rewrite Ha' in Ha. injection Ha as Ha. subst a'.
  cbn [Polygon.shoelace2]. unfold Polygon.coord in *. lra.
Qed.

Lemma range_whole {A : Type} (l : list A) : Polygon.range l 0 (length l) = l.
Proof.
  unfold Polygon.range. rewrite Nat.sub_0_r. cbn [skipn]. apply firstn_all.
Qed.

(** An index sequence of at most three nodes yields exactly zero. *)
Lemma polygonal_area_short {Real : Type} {ops : RealOps Real} (x y : list Real)
  (nodes : list Z) :
  (length nodes <= 3)%nat -> Polygon.polygonal_area x y nodes = Ok (of_int 0).
Proof.
  intro H. unfold Polygon.polygonal_area, Polygon.polygonal_area_iter. cbv zeta.
  replace (Z.of_nat (length nodes) - Z.of_nat 0 <=? 3) with true
    by (symmetry; apply Z.leb_le; lia).
  reflexivity.
Qed.

(** With four nodes or more in a container the first read, [*nodes_end], is
    past the end of the container. *)
Lemma polygonal_area_past_the_end {Real : Type} {ops : RealOps Real} (x y : list Real)
  (nodes : list Z) :
  (4 <= length nodes)%nat -> Polygon.polygonal_area x y nodes = Undefined OutOfRange.
Proof.
  intro H. unfold Polygon.polygonal_area, Polygon.polygonal_area_iter. cbv zeta.
  replace (Z.of_nat (length nodes) - Z.of_nat 0 <=? 3) with false
    by (symmetry; apply Z.leb_gt; lia).
  rewrite vget_out_of_range by lia. reflexivity.
Qed.

(** C6.  On the unit square, given counterclockwise as the index sequence
    0, 1, 2, 3, whose signed area is 1, [polygonal_area] initialises [node_2]
    from the position one past the last index and so has no defined result,
    in exact arithmetic and in binary64; the loop itself, had it started from
    the last index, yields the area 1. *)
Theorem polygonal_area_unit_square :
  Polygon.polygonal_area Polygon.unit_square_x Polygon.unit_square_y
    Polygon.unit_square_nodes = Undefined OutOfRange /\
  (Polygon.shoelace2 Polygon.unit_square_x Polygon.unit_square_y
     Polygon.unit_square_nodes / 2 = 1)%R /\
  (exists a,
    Polygon.polygonal_area_loop Polygon.unit_square_x Polygon.unit_square_y
      Polygon.unit_square_nodes 3 0%R = Ok a /\ (- a / 2 = 1)%R) /\
  Polygon.polygonal_area Polygon.unit_square_x64 Polygon.unit_square_y64
    Polygon.unit_square_nodes = Undefined OutOfRange.
Proof.
  assert (Harea : (Polygon.shoelace2 Polygon.unit_square_x Polygon.unit_square_y
                     Polygon.unit_square_nodes / 2 = 1)%R).
  { unfold Polygon.shoelace2, Polygon.unit_square_nodes, Polygon.shoelace_from,
      Polygon.coord, Polygon.unit_square_x, Polygon.unit_square_y.
    change (Z.to_nat 0) with 0%nat. change (Z.to_nat 1) with 1%nat.
    change (Z.to_nat 2) with 2%nat. change (Z.to_nat 3) with 3%nat.
    cbn [nth]. lra. }
  split; [| split; [| split]].
  - apply polygonal_area_past_the_end. cbn. lia.
  - exact Harea.
  - destruct (polygonal_area_loop_closed Polygon.unit_square_x Polygon.unit_square_y
                0 [1; 2; 3]) as [a [Ha Hhalf]].
    + repeat constructor; cbn; lia.
    + exists a. split; [exact Ha |].
      change (0 :: [1; 2; 3]) with Polygon.unit_square_nodes in Hhalf.
      rewrite Hhalf. exact Harea.
  - vm_compute. reflexivity.
Qed.

(** X9.  For every numeric type, the container form of [polygonal_area]
    returns a value only for at most three nodes, and that value is the
    literal 0 whatever the coordinates are: called on a container it never
    returns a non-zero area. *)
Theorem polygonal_area_returns_only_zero {Real : Type} {ops : RealOps Real}
  (x y : list Real) (nodes : list Z) (a : Real) :
  Polygon.polygonal_area x y nodes = Ok a ->
  a = of_int 0 /\ (length nodes <= 3)%nat.
Proof.
  intro H. destruct (Nat.le_gt_cases (length nodes) 3) as [Hle | Hgt].
  - rewrite (polygonal_area_short x y nodes Hle) in H. injection H as <-.
    split; [reflexivity | exact Hle].
  - rewrite (polygonal_area_past_the_end x y nodes Hgt) in H. discriminate.
Qed.

Lemma polygonal_area_returns_only_zero_witness :
  Polygon.polygonal_area [0; 1; 0]%float [0; 0; 1]%float [0; 1; 2] = Ok 0%float /\
  0%float = of_int 0 /\ (length [0; 1; 2] <= 3)%nat.
Proof.
  assert (H : Polygon.polygonal_area [0; 1; 0]%float [0; 0; 1]%float [0; 1; 2]
              = Ok 0%float) by reflexivity.
  split; [exact H |].
  exact (polygonal_area_returns_only_zero _ _ _ _ H).
Defined.

(** On a proper sub-range of a larger buffer the read of [*nodes_end] is
    defined: for the first four elements of the buffer 3, 2, 1, 0, 0 it yields
    the fifth element, node 0, and the iterator form returns the area -1 of
    the unit square traversed clockwise. *)
Lemma polygonal_area_iter_sub_range :
  Polygon.polygonal_area_iter Polygon.unit_square_x64 Polygon.unit_square_y64
    [3; 2; 1; 0; 0] 0 4 = Ok (-1)%float.
Proof. vm_compute. reflexivity. Qed.

Lemma polygonal_area_loop_step_inv {Real : Type} {ops : RealOps Real}
  (x y : list Real) (n : Z) (rest : list Z) (prev : Z) (acc a : Real) :
  Polygon.polygonal_area_loop x y (n :: rest) prev acc = Ok a ->
  Polygon.in_bounds x y prev /\ Polygon.in_bounds x y n /\
  exists acc', Polygon.polygonal_area_loop x y rest n acc' = Ok a.
Proof.
  cbn [Polygon.polygonal_area_loop].
  destruct (vget x n) as [x2 | | |] eqn:E1; cbn [bind]; try discriminate.
  destruct (vget x prev) as [x1 | | |] eqn:E2; cbn [bind]; try discriminate.
  destruct (vget y prev) as [y1 | | |] eqn:E3; cbn [bind]; try discriminate.
  destruct (vget y n) as [y2 | | |] eqn:E4; cbn [bind]; try discriminate.
  intro H. apply vget_ok_range in E1, E2, E3, E4.
  unfold Polygon.in_bounds. repeat split; try lia.
  eexists. exact H.
Qed.

Lemma polygonal_area_loop_in_bounds {Real : Type} {ops : RealOps Real}
  (x y : list Real) (rest : list Z) :
  forall (prev : Z) (acc : Real),
    Polygon.in_bounds x y prev -> Forall (Polygon.in_bounds x y) rest ->
    exists a, Polygon.polygonal_area_loop x y rest prev acc = Ok a.
Proof.
  induction rest as [| n rest IH]; intros prev acc Hprev Hrest.
  - exists acc. reflexivity.
  - inversion Hrest as [| ? ? Hn Hrest']; subst.
    destruct Hprev as [Hpx Hpy]. destruct (Hn) as [Hnx Hny].
    cbn [Polygon.polygonal_area_loop].
    rewrite (vget_in_range x n (of_int 0) Hnx), (vget_in_range x prev (of_int 0) Hpx),
            (vget_in_range y prev (of_int 0) Hpy), (vget_in_range y n (of_int 0) Hny).
    cbn [bind]. apply IH; assumption.
Qed.

(** X10.  For every numeric type, the summation loop of [polygonal_area] has
    a result exactly when the node it starts from and every node it visits
    index both coordinate sequences; any other node makes it read out of
    range. *)
Theorem polygonal_area_loop_defined_iff {Real : Type} {ops : RealOps Real}
  (x y : list Real) (rest : list Z) :
  forall (n prev : Z) (acc : Real),
    (exists a, Polygon.polygonal_area_loop x y (n :: rest) prev acc = Ok a) <->
    Polygon.in_bounds x y prev /\ Forall (Polygon.in_bounds x y) (n :: rest).
Proof.
  induction rest as [| n' rest IH]; intros n prev acc; split.
  - intros [a H]. apply polygonal_area_loop_step_inv in H.
    destruct H as [Hp [Hn _]]. split; [exact Hp | constructor; [exact Hn | constructor]].
  - intros [Hp Hall]. apply polygonal_area_loop_in_bounds; assumption.
  - intros [a H]. apply polygonal_area_loop_step_inv in H.
    destruct H as [Hp [Hn [acc' H]]].
    split; [exact Hp | constructor; [exact Hn |]].
    apply (IH n' n acc'). exists a. exact H.
  - intros [Hp Hall]. apply polygonal_area_loop_in_bounds; assumption.
Qed.

(** ** Mesh construction *)

Lemma tri_mesh_ctor_length_mismatch {Real : Type} {ops : RealOps Real} (x y : list Real) :
  length x <> length y -> Mesh.tri_mesh_ctor x y = Throw Mesh.length_mismatch.
Proof.
  intro H. unfold Mesh.tri_mesh_ctor. cbv zeta.
  replace (Z.of_nat (length x) =? Z.of_nat (length y)) with false
    by (symmetry; apply Z.eqb_neq; lia).
  reflexivity.
Qed.

Lemma tri_mesh_ctor_too_few_nodes {Real : Type} {ops : RealOps Real} (x y : list Real) :
  length x = length y -> (length x < 3)%nat ->
  Mesh.tri_mesh_ctor x y = Throw Mesh.too_few_nodes.
Proof.
  intros Heq Hlt. unfold Mesh.tri_mesh_ctor. cbv zeta.
  rewrite Heq, Z.eqb_refl. cbn [negb].
  replace (Z.of_nat (length y) <? 3) with true by (symmetry; apply Z.ltb_lt; lia).
  reflexivity.
Qed.

(** With at least three points in each sequence the constructor reaches the
    orientation tests on the first three points. *)
Lemma tri_mesh_ctor_seed {Real : Type} {ops : RealOps Real}
  (x0 y0 x1 y1 x2 y2 : Real) (xr yr : list Real) :
  length xr = length yr ->
  let x := x0 :: x1 :: x2 :: xr in
  let y := y0 :: y1 :: y2 :: yr in
  let a := Mesh.mk_adjacency (repeat 0 (length x)) (repeat 0 (length x))
                             (repeat 0 (length x)) in
  let done (a : Mesh.adjacency) :=
    Mesh.mk_tri_mesh x y [] (Z.of_nat (length x)) None None None
      (Mesh.a_list a) (Mesh.a_lptr a) (Mesh.a_lend a) None in
  Mesh.tri_mesh_ctor x y =
  if negb (left x0 y0 x1 y1 x2 y2) then
    bind (Mesh.assign_all a Mesh.seed_132) (fun a => Ok (done a))
  else if negb (left x1 y1 x0 y0 x2 y2) then
    bind (Mesh.assign_all a Mesh.seed_123) (fun a => Ok (done a))
  else Throw Mesh.colinear_nodes.
Proof.
  intros Hlen x y a done. unfold Mesh.tri_mesh_ctor, resize_empty. cbv zeta.
  assert (Hxy : length x = length y) by (subst x y; cbn; lia).
  assert (Hx : (3 <= length x)%nat) by (subst x; cbn; lia).
  rewrite <- Hxy, Z.eqb_refl. cbn [negb].
  replace (Z.of_nat (length x) <? 3) with false by (symmetry; apply Z.ltb_ge; lia).
  rewrite (vget_in_range x 0 x0), (vget_in_range x 1 x0), (vget_in_range x 2 x0) by lia.
  rewrite (vget_in_range y 0 y0), (vget_in_range y 1 y0), (vget_in_range y 2 y0) by lia.
  reflexivity.
Qed.

Lemma replace_nth_app {A : Type} (v t : list A) (a : A) :
  forall n : nat, (n < length v)%nat ->
  replace_nth (v ++ t) n a = replace_nth v n a ++ t.
Proof.
  induction v as [| b v IH]; intros n Hn; cbn in Hn; [lia |].
  destruct n as [| n]; cbn; [reflexivity |].
  rewrite IH by lia. reflexivity.
Qed.

Lemma replace_nth_length {A : Type} (v : list A) (a : A) :
  forall n : nat, length (replace_nth v n a) = length v.
Proof.
  induction v as [| b v IH]; intro n; [reflexivity |].
  destruct n; cbn; [reflexivity | rewrite IH; reflexivity].
Qed.

Lemma vset_ok_inv {A : Type} (v v' : list A) (i : Z) (a : A) :
  vset v i a = Ok v' ->
  0 <= i < Z.of_nat (length v) /\ v' = replace_nth v (Z.to_nat i) a.
Proof.
  unfold vset.
  destruct (0 <=? i) eqn:E1; destruct (i <? Z.of_nat (length v)) eqn:E2;
    cbn; try discriminate.
  intro H. injection H as H. apply Z.leb_le in E1. apply Z.ltb_lt in E2.
  split; [lia | congruence].
Qed.

Lemma vset_no_throw {A : Type} (v : list A) (i : Z) (a : A) (e : exception) :
  vset v i a <> Throw e.
Proof. unfold vset. destruct (_ && _); discriminate. Qed.

(** A store that is in range of a vector is unaffected by what follows it. *)
Lemma vset_app {A : Type} (v v' t : list A) (i : Z) (a : A) :
  vset v i a = Ok v' -> vset (v ++ t) i a = Ok (v' ++ t).
Proof.
  intro H. apply vset_ok_inv in H. destruct H as [Hi ->].
  unfold vset. rewrite length_app.
  replace (0 <=? i) with true by (symmetry; apply Z.leb_le; lia).
  replace (i <? Z.of_nat (length v + length t)) with true
    by (symmetry; apply Z.ltb_lt; lia).
  cbn. rewrite replace_nth_app by lia. reflexivity.
Qed.

Lemma assign_app (a a' : Mesh.adjacency) (w : Mesh.target * Z * Z) (t1 t2 t3 : list Z) :
  Mesh.assign a w = Ok a' ->
  Mesh.assign (Mesh.adjacency_app a t1 t2 t3) w = Ok (Mesh.adjacency_app a' t1 t2 t3).
Proof.
  destruct w as [[t i] v]. unfold Mesh.assign.
  destruct t; cbn [Mesh.adjacency_app Mesh.a_list Mesh.a_lptr Mesh.a_lend].
  - destruct (vset (Mesh.a_list a) i v) as [l | | |] eqn:E; cbn; try discriminate.
    intro H. injection H as <-. rewrite (vset_app _ _ t1 _ _ E). reflexivity.
  - destruct (vset (Mesh.a_lptr a) i v) as [l | | |] eqn:E; cbn; try discriminate.
    intro H. injection H as <-. rewrite (vset_app _ _ t2 _ _ E). reflexivity.
  - destruct (vset (Mesh.a_lend a) i v) as [l | | |] eqn:E; cbn; try discriminate.
    intro H. injection H as <-. rewrite (vset_app _ _ t3 _ _ E). reflexivity.
Qed.

Lemma assign_all_app (ws : list (Mesh.target * Z * Z)) (t1 t2 t3 : list Z) :
  forall a a' : Mesh.adjacency,
    Mesh.assign_all a ws = Ok a' ->
    Mesh.assign_all (Mesh.adjacency_app a t1 t2 t3) ws = Ok (Mesh.adjacency_app a' t1 t2 t3).
Proof.
  induction ws as [| w ws IH]; intros a a' H; cbn in *.
  - injection H as <-. reflexivity.
  - destruct (Mesh.assign a w) as [a1 | | |] eqn:E; cbn in H; try discriminate.
    rewrite (assign_app _ _ _ t1 t2 t3 E). cbn. apply IH. exact H.
Qed.

(** The stores of the seed throw nothing. *)
Lemma assign_no_throw (a : Mesh.adjacency) (w : Mesh.target * Z * Z) (e : exception) :
  Mesh.assign a w <> Throw e.
Proof.
  destruct w as [[t i] v]. unfold Mesh.assign.
  destruct t;
    match goal with
    | |- context [vset ?l i v] =>
        pose proof (vset_no_throw l i v e); destruct (vset l i v); cbn; congruence
    end.
Qed.

Lemma assign_all_no_throw (ws : list (Mesh.target * Z * Z)) (e : exception) :
  forall a : Mesh.adjacency, Mesh.assign_all a ws <> Throw e.
Proof.
  induction ws as [| w ws IH]; intro a; cbn; [discriminate |].
  pose proof (assign_no_throw a w e).
  destruct (Mesh.assign a w) as [a1 | | |]; cbn; [apply IH | congruence | discriminate | discriminate].
Qed.

(** The constructor throws the collinearity error exactly when both
    orientation tests on the first three points answer [true]. *)
Lemma tri_mesh_ctor_colinear_iff {Real : Type} {ops : RealOps Real}
  (x0 y0 x1 y1 x2 y2 : Real) (xr yr : list Real) :
  length xr = length yr ->
  Mesh.tri_mesh_ctor (x0 :: x1 :: x2 :: xr) (y0 :: y1 :: y2 :: yr)
  = Throw Mesh.colinear_nodes <->
  left x0 y0 x1 y1 x2 y2 = true /\ left x1 y1 x0 y0 x2 y2 = true.
Proof.
  intro Hlen.
  rewrite (tri_mesh_ctor_seed x0 y0 x1 y1 x2 y2 xr yr Hlen).
  destruct (left x0 y0 x1 y1 x2 y2); cbn [negb].
  - destruct (left x1 y1 x0 y0 x2 y2); cbn [negb].
    + split; [intros _; split; reflexivity | reflexivity].
    + split; [| intros [_ H]; discriminate].
      match goal with
      | |- bind ?r _ = _ -> _ =>
          pose proof (assign_all_no_throw Mesh.seed_123 Mesh.colinear_nodes
                        (Mesh.mk_adjacency
                           (repeat 0 (length (x0 :: x1 :: x2 :: xr)))
                           (repeat 0 (length (x0 :: x1 :: x2 :: xr)))
                           (repeat 0 (length (x0 :: x1 :: x2 :: xr))))) as Hn;
          destruct r; cbn [bind]; intro H; [discriminate | congruence | discriminate
                                             | discriminate]
      end.
  - split; [| intros [H _]; discriminate].
    match goal with
    | |- bind ?r _ = _ -> _ =>
        pose proof (assign_all_no_throw Mesh.seed_132 Mesh.colinear_nodes
                      (Mesh.mk_adjacency
                         (repeat 0 (length (x0 :: x1 :: x2 :: xr)))
                         (repeat 0 (length (x0 :: x1 :: x2 :: xr)))
                         (repeat 0 (length (x0 :: x1 :: x2 :: xr))))) as Hn;
        destruct r; cbn [bind]; intro H; [discriminate | congruence | discriminate
                                           | discriminate]
    end.
Qed.




(** The seed on six value-initialised slots, and on three. *)
Lemma seed_123_six :
  Mesh.assign_all (Mesh.mk_adjacency (repeat 0 6) (repeat 0 6) (repeat 0 6)) Mesh.seed_123
  = Ok (Mesh.mk_adjacency [2; -3; 3; -1; 1; -2] [2; 1; 4; 3; 6; 5] [2; 4; 6; 0; 0; 0]).
Proof. reflexivity. Qed.

Lemma seed_132_six :
  Mesh.assign_all (Mesh.mk_adjacency (repeat 0 6) (repeat 0 6) (repeat 0 6)) Mesh.seed_132
  = Ok (Mesh.mk_adjacency [3; -2; 1; -3; 2; -1] [2; 1; 4; 3; 6; 5] [2; 4; 6; 0; 0; 0]).
Proof. reflexivity. Qed.

Lemma seed_three_out_of_range (ws : list (Mesh.target * Z * Z)) :
  ws = Mesh.seed_123 \/ ws = Mesh.seed_132 ->
  Mesh.assign_all (Mesh.mk_adjacency (repeat 0 3) (repeat 0 3) (repeat 0 3)) ws
  = Undefined OutOfRange.
Proof. intros [-> | ->]; reflexivity. Qed.

(** With six points or more, and one of the two orientation tests on the
    first triple answering [false], the constructor returns: the seed is
    stored as 1, 3, 2 when the first test fails and as 1, 2, 3 otherwise;
    [nodes_], the three counts and [lnew] are not assigned. *)
Lemma tri_mesh_ctor_seeded {Real : Type} {ops : RealOps Real}
  (x0 y0 x1 y1 x2 y2 x3 y3 x4 y4 x5 y5 : Real) (xr yr : list Real) :
  length xr = length yr ->
  left x0 y0 x1 y1 x2 y2 = false \/ left x1 y1 x0 y0 x2 y2 = false ->
  let x := x0 :: x1 :: x2 :: x3 :: x4 :: x5 :: xr in
  let y := y0 :: y1 :: y2 :: y3 :: y4 :: y5 :: yr in
  Mesh.tri_mesh_ctor x y =
  Ok (Mesh.mk_tri_mesh x y [] (Z.of_nat (length x)) None None None
        (Mesh.seed_entries (left x0 y0 x1 y1 x2 y2) ++ repeat 0 (length xr))
        ([2; 1; 4; 3; 6; 5] ++ repeat 0 (length xr))
        ([2; 4; 6; 0; 0; 0] ++ repeat 0 (length xr))
        None).
Proof.
  intros Hlen Hnc x y.
  assert (Hlen' : length (x3 :: x4 :: x5 :: xr) = length (y3 :: y4 :: y5 :: yr))
    by (cbn; lia).
  pose proof (tri_mesh_ctor_seed x0 y0 x1 y1 x2 y2 _ _ Hlen') as Hctor.
  cbv zeta in Hctor. fold x y in Hctor. rewrite Hctor. clear Hctor.
  assert (Hrep : Mesh.mk_adjacency (repeat 0 (length x)) (repeat 0 (length x))
                                   (repeat 0 (length x))
                 = Mesh.adjacency_app
                     (Mesh.mk_adjacency (repeat 0 6) (repeat 0 6) (repeat 0 6))
                     (repeat 0 (length xr)) (repeat 0 (length xr)) (repeat 0 (length xr))).
  { unfold Mesh.adjacency_app. cbn [Mesh.a_list Mesh.a_lptr Mesh.a_lend].
    rewrite <- repeat_app. reflexivity. }
  rewrite Hrep.
  destruct (left x0 y0 x1 y1 x2 y2) eqn:E1; cbn [negb Mesh.seed_entries].
  - destruct (left x1 y1 x0 y0 x2 y2) eqn:E2; cbn [negb].
    + exfalso. destruct Hnc; discriminate.
    + rewrite (assign_all_app _ _ _ _ _ _ seed_123_six). reflexivity.
  - rewrite (assign_all_app _ _ _ _ _ _ seed_132_six). reflexivity.
Qed.

(** With exactly three points the seed stores run past [list] and [lptr],
    which were resized to the number of points. *)
Lemma tri_mesh_ctor_three_points {Real : Type} {ops : RealOps Real}
  (x0 y0 x1 y1 x2 y2 : Real) :
  left x0 y0 x1 y1 x2 y2 = false \/ left x1 y1 x0 y0 x2 y2 = false ->
  Mesh.tri_mesh_ctor [x0; x1; x2] [y0; y1; y2] = Undefined OutOfRange.
Proof.
  intro Hnc.
  pose proof (tri_mesh_ctor_seed x0 y0 x1 y1 x2 y2 [] [] eq_refl) as Hctor.
  cbv zeta in Hctor. rewrite Hctor. clear Hctor.
  change (length [x0; x1; x2]) with 3%nat.
  destruct (left x0 y0 x1 y1 x2 y2) eqn:E1; cbn [negb].
  - destruct (left x1 y1 x0 y0 x2 y2) eqn:E2; cbn [negb].
    + exfalso. destruct Hnc; discriminate.
    + rewrite seed_three_out_of_range by (left; reflexivity). reflexivity.
  - rewrite seed_three_out_of_range by (right; reflexivity). reflexivity.
Qed.

Lemma tri_mesh_ctor_six : Mesh.tri_mesh_ctor Mesh.six_x Mesh.six_y = Ok Mesh.six_seed.
Proof.
  unfold Mesh.six_x, Mesh.six_y.
  rewrite (tri_mesh_ctor_seeded 0%R 0%R 1%R 0%R 0%R 1%R 2%R 0%R 2%R 2%R 0%R 2%R
             [] [] eq_refl)
    by (right; apply left_false_iff; lra).
  replace (left 0%R 0%R 1%R 0%R 0%R 1%R) with true
    by (symmetry; apply left_true_iff; lra).
  reflexivity.
Qed.

Lemma tri_mesh_ctor_unit_triangle :
  Mesh.tri_mesh_ctor [0; 1; 0]%R [0; 0; 1]%R = Undefined OutOfRange.
Proof. apply tri_mesh_ctor_three_points. right. apply left_false_iff. lra. Qed.

(** C5.  For the six points (0,0), (1,0), (0,1), (2,0), (2,2), (0,2), whose
    first triple is counterclockwise, the constructor stores the seed
    triangle 1, 2, 3 in the first six slots of [list] and [lptr] and returns
    with [lnew] never assigned, so [lnew] does not designate the first unused
    slot; for the three points (0,0), (1,0), (0,1) alone the seed stores leave
    the vectors, which hold three slots.  The same holds in binary64. *)
Theorem tri_mesh_ctor_lnew_unassigned :
  Mesh.tri_mesh_ctor Mesh.six_x Mesh.six_y = Ok Mesh.six_seed /\
  Mesh.lnew Mesh.six_seed = None /\
  Mesh.tri_mesh_ctor [0; 1; 0]%R [0; 0; 1]%R = Undefined OutOfRange /\
  Mesh.tri_mesh_ctor Mesh.six_x64 Mesh.six_y64 = Ok Mesh.six_seed64 /\
  Mesh.lnew Mesh.six_seed64 = None /\
  Mesh.tri_mesh_ctor [0; 1; 0]%float [0; 0; 1]%float = Undefined OutOfRange.
Proof.
  split; [exact tri_mesh_ctor_six |].
  split; [reflexivity |].
  split; [exact tri_mesh_ctor_unit_triangle |].
  split; [vm_compute; reflexivity |].
  split; [reflexivity |].
  vm_compute. reflexivity.
Qed.

(** Whatever the constructor returns, it has assigned neither [nodes_] nor
    any of the three counts nor [lnew]. *)
Lemma tri_mesh_ctor_unassigned {Real : Type} {ops : RealOps Real} (x y : list Real)
  (m : Mesh.tri_mesh Real) :
  Mesh.tri_mesh_ctor x y = Ok m ->
  Mesh.nodes_ m = [] /\ Mesh.boundary_node_count_ m = None /\
  Mesh.arc_count_ m = None /\ Mesh.triangle_count_ m = None /\ Mesh.lnew m = None.
Proof.
  unfold Mesh.tri_mesh_ctor. cbv zeta.
  destruct (negb _); [discriminate |].
  destruct (_ <? 3); [discriminate |].
  repeat match goal with
         | |- context [vget ?v ?i] =>
             destruct (vget v i); cbn [bind]; try discriminate
         end.
  destruct (negb (left _ _ _ _ _ _)).
  - destruct (Mesh.assign_all _ _); cbn [bind]; try discriminate.
    intro H. injection H as <-. repeat split.
  - destruct (negb (left _ _ _ _ _ _)); [| discriminate].
    destruct (Mesh.assign_all _ _); cbn [bind]; try discriminate.
    intro H. injection H as <-. repeat split.
Qed.

(** C2.  Construction ends after the seed: [add_node] has an empty body and
    the constructor calls neither it nor [build_nodes].  For the six points
    (0,0), (1,0), (0,1), (2,0), (2,2), (0,2), a valid input, the constructor
    returns with [boundary_node_count_], [triangle_count_] and [arc_count_]
    never assigned, so the counts satisfy no relation; for the three points
    (0,0), (1,0), (0,1) the seed stores leave the vectors and no mesh
    results.  The same holds in binary64, and in every numeric type no mesh
    the constructor returns has any of the counts assigned. *)
Theorem tri_mesh_ctor_counts_unassigned :
  (Mesh.tri_mesh_ctor Mesh.six_x Mesh.six_y = Ok Mesh.six_seed /\
   Mesh.boundary_node_count_ Mesh.six_seed = None /\
   Mesh.triangle_count_ Mesh.six_seed = None /\
   Mesh.arc_count_ Mesh.six_seed = None) /\
  (Mesh.tri_mesh_ctor Mesh.six_x64 Mesh.six_y64 = Ok Mesh.six_seed64 /\
   Mesh.boundary_node_count_ Mesh.six_seed64 = None /\
   Mesh.triangle_count_ Mesh.six_seed64 = None /\
   Mesh.arc_count_ Mesh.six_seed64 = None) /\
  Mesh.tri_mesh_ctor [0; 1; 0]%R [0; 0; 1]%R = Undefined OutOfRange /\
  Mesh.tri_mesh_ctor [0; 1; 0]%float [0; 0; 1]%float = Undefined OutOfRange /\
  (forall (Real : Type) (ops : RealOps Real) (x y : list Real) (m : Mesh.tri_mesh Real),
      Mesh.tri_mesh_ctor x y = Ok m ->
      Mesh.boundary_node_count_ m = None /\ Mesh.triangle_count_ m = None /\
      Mesh.arc_count_ m = None) /\
  (forall (Real : Type) (m : Mesh.tri_mesh Real) (index : Z) (x y : Real)
          (search_index node_location : Z),
      Mesh.add_node m index x y search_index node_location = Undefined MissingReturn).
Proof.
  split; [split; [exact tri_mesh_ctor_six | repeat split] |].
  split; [split; [vm_compute; reflexivity | repeat split] |].
  split; [exact tri_mesh_ctor_unit_triangle |].
  split; [vm_compute; reflexivity |].
  split.
  - intros Real ops x y m H.
    destruct (tri_mesh_ctor_unassigned x y m H) as [_ [Hb [Ha [Ht _]]]].
    repeat split; assumption.
  - intros. reflexivity.
Qed.

(** ** Point location *)

(** [find_triangle] produces a nodal index on no input. *)
Lemma find_triangle_no_result {Real : Type} (m : Mesh.tri_mesh Real) (index : Z)
  (x y : Real) (r : Mesh.nodal_index Real) :
  Mesh.find_triangle m index x y <> Ok r.
Proof.
  unfold Mesh.find_triangle. cbv zeta.
  destruct (vget (Mesh.lend m) index) as [lp | | |]; cbn; try discriminate.
  destruct (vget (Mesh.list_ m) lp) as [nl | | |]; cbn; try discriminate.
  destruct (vget (Mesh.lptr m) lp) as [lp' | | |]; cbn; try discriminate.
  destruct (vget (Mesh.list_ m) lp') as [nf | | |]; cbn; discriminate.
Qed.

(** C1.  On the seeded mesh of the six sample points, started at node 0 with
    the query point (1/4, 1/4), which lies inside the seed triangle,
    [find_triangle] reads the first and last neighbour entries and then
    reaches the end of its body without returning any nodal index, in exact
    arithmetic and in binary64. *)
Theorem find_triangle_seed_interior :
  Mesh.find_triangle Mesh.six_seed 0 (1 / 4)%R (1 / 4)%R = Undefined MissingReturn /\
  Mesh.find_triangle Mesh.six_seed64 0 0.25%float 0.25%float = Undefined MissingReturn.
Proof. split; reflexivity. Qed.

(** ** Boundary enumeration *)

Lemma to_size_t_succ (k n : Z) :
  to_size_t (to_size_t (k + 1) + n) = to_size_t (k + (1 + n)).
Proof.
  unfold to_size_t. rewrite Zplus_mod_idemp_l. f_equal. lia.
Qed.

Lemma to_size_t_small (z : Z) : 0 <= z < size_t_modulus -> to_size_t z = z.
Proof. intro H. unfold to_size_t. apply Z.mod_small. exact H. Qed.

(** *** Growing a vector *)

Lemma push_back_room {A : Type} (heap : Z) (v : list A) (a : A) :
  Z.of_nat (length v) < capacity heap -> push_back heap v a = Ok (v ++ [a]).
Proof.
  unfold capacity, push_back. intro H. cbv zeta.
  replace (vector_max_size <=? Z.of_nat (length v)) with false
    by (symmetry; apply Z.leb_gt; lia).
  replace (heap <=? Z.of_nat (length v)) with false
    by (symmetry; apply Z.leb_gt; lia).
  reflexivity.
Qed.

Lemma push_back_full {A : Type} (heap : Z) (v : list A) (a : A) :
  capacity heap <= Z.of_nat (length v) ->
  exists e, push_back heap v a = Throw e /\ allocation_failure e.
Proof.
  unfold capacity, push_back, allocation_failure. intro H. cbv zeta.
  destruct (vector_max_size <=? Z.of_nat (length v)) eqn:E1; [eauto |].
  apply Z.leb_gt in E1.
  replace (heap <=? Z.of_nat (length v)) with true
    by (symmetry; apply Z.leb_le; lia).
  eauto.
Qed.

Lemma push_back_ok_inv {A : Type} (heap : Z) (v v' : list A) (a : A) :
  push_back heap v a = Ok v' ->
  v' = v ++ [a] /\ Z.of_nat (length v) < capacity heap.
Proof.
  unfold capacity, push_back. cbv zeta.
  destruct (vector_max_size <=? Z.of_nat (length v)) eqn:E1; [discriminate |].
  destruct (heap <=? Z.of_nat (length v)) eqn:E2; [discriminate |].
  intro H. injection H as <-. apply Z.leb_gt in E1, E2. split; [reflexivity | lia].
Qed.



(** *** The two loops *)

Section Walk.
Context {Real : Type}.
Implicit Types (m : Mesh.tri_mesh Real).

Lemma next_node_inv m (c c' : Z) :
  Mesh.next_node m c = Ok c' ->
  exists lp v, vget (Mesh.lend m) c = Ok lp /\ vget (Mesh.list_ m) lp = Ok v /\
               c' = to_size_t v.
Proof.
  unfold Mesh.next_node.
  destruct (vget (Mesh.lend m) c) as [lp | | |] eqn:E1; cbn; try discriminate.
  destruct (vget (Mesh.list_ m) lp) as [v | | |] eqn:E2; cbn; try discriminate.
  intro H. injection H as <-. exists lp, v. split; [| split]; auto.
Qed.



(** More fuel does not change an outcome that was reached. *)
Lemma skip_positive_mono m (fuel : nat) :
  forall (fuel' : nat) (s : Z),
    (fuel <= fuel')%nat ->
    Mesh.skip_positive fuel m s <> OutOfFuel ->
    Mesh.skip_positive fuel' m s = Mesh.skip_positive fuel m s.
Proof.
  induction fuel as [| fuel IH]; intros fuel' s Hle H; cbn in H; [congruence |].
  destruct fuel' as [| fuel']; [lia |]. cbn.
  destruct (vget (Mesh.list_ m) s) as [v | | |]; cbn [bind] in *; try reflexivity.
  destruct (0 <? v); [| reflexivity].
  apply IH; [lia | exact H].
Qed.

Lemma walk_boundary_mono m (heap start : Z) (fuel : nat) :
  forall (fuel' : nat) (c k : Z) (nodes : list Z),
    (fuel <= fuel')%nat ->
    Mesh.walk_boundary fuel heap m start c k nodes <> OutOfFuel ->
    Mesh.walk_boundary fuel' heap m start c k nodes
    = Mesh.walk_boundary fuel heap m start c k nodes.
Proof.
  induction fuel as [| fuel IH]; intros fuel' c k nodes Hle H; cbn in H;
    [congruence |].
  destruct fuel' as [| fuel']; [lia |]. cbn.
  destruct (start =? c); [reflexivity |].
  destruct (push_back heap nodes c) as [nodes' | | |]; cbn [bind] in *; try reflexivity.
  destruct (Mesh.next_node m c) as [c' | | |]; cbn [bind] in *; try reflexivity.
  apply IH; [lia | exact H].
Qed.




(** A walk that returns has followed a closed hull path, for whose nodes
    [nodes_] had room. *)
Lemma walk_boundary_inv m (heap start : Z) (fuel : nat) :
  forall (c k k' : Z) (nodes nodes' : list Z),
    to_size_t k = k ->
    Mesh.walk_boundary fuel heap m start c k nodes = Ok (k', nodes') ->
    exists rest,
      Mesh.hull_path m start c rest /\ nodes' = nodes ++ rest /\
      k' = to_size_t (k + Z.of_nat (length rest)) /\
      (rest = [] \/ Z.of_nat (length nodes) + Z.of_nat (length rest) <= capacity heap).
Proof.
  induction fuel as [| fuel IH]; intros c k k' nodes nodes' Hk H; cbn in H;
    [discriminate |].
  destruct (start =? c) eqn:E.
  - apply Z.eqb_eq in E. subst c. injection H as <- <-.
    exists []. split; [constructor | split; [| split]].
    + rewrite app_nil_r. reflexivity.
    + cbn. rewrite Z.add_0_r. symmetry. exact Hk.
    + left. reflexivity.
  - apply Z.eqb_neq in E.
    destruct (push_back heap nodes c) as [nodes1 | | |] eqn:Ep; cbn [bind] in H;
      try discriminate.
    apply push_back_ok_inv in Ep. destruct Ep as [-> Hroom].
    destruct (Mesh.next_node m c) as [c' | | |] eqn:En; cbn [bind] in H;
      try discriminate.
    apply IH in H.
    + destruct H as [rest [Hpath [Hnodes [Hk' Hcap]]]].
      exists (c :: rest). split; [| split; [| split]].
      * econstructor; [congruence | exact En | exact Hpath].
      * rewrite Hnodes, <- app_assoc. reflexivity.
      * rewrite Hk', to_size_t_succ. cbn [length]. rewrite Nat2Z.inj_succ.
        f_equal. lia.
      * right. cbn [length]. rewrite length_app in Hcap. cbn [length] in Hcap.
        destruct Hcap as [-> | Hcap]; cbn [length]; lia.
    + unfold to_size_t. apply Z.mod_mod. discriminate.
Qed.

(** A closed hull path is followed to its end, given fuel for each step and
    room in [nodes_] for each node. *)
Lemma walk_boundary_complete m (heap start c : Z) (rest : list Z) :
  Mesh.hull_path m start c rest ->
  forall (fuel : nat) (k : Z) (nodes : list Z),
    to_size_t k = k ->
    (length rest < fuel)%nat ->
    rest = [] \/ Z.of_nat (length nodes) + Z.of_nat (length rest) <= capacity heap ->
    Mesh.walk_boundary fuel heap m start c k nodes =
    Ok (to_size_t (k + Z.of_nat (length rest)), nodes ++ rest).
Proof.
  induction 1 as [| c c' rest Hne Hnext Hpath IH]; intros fuel k nodes Hk Hfuel Hroom.
  - destruct fuel as [| fuel]; [lia |]. cbn.
    rewrite Z.eqb_refl, Z.add_0_r, app_nil_r, Hk. reflexivity.
  - destruct fuel as [| fuel]; [cbn in Hfuel; lia |]. cbn [Mesh.walk_boundary].
    replace (start =? c) with false by (symmetry; apply Z.eqb_neq; congruence).
    destruct Hroom as [Hnil | Hroom]; [discriminate |]. cbn [length] in Hroom.
    rewrite push_back_room by lia. cbn [bind].
    rewrite Hnext. cbn [bind].
    rewrite IH.
    + rewrite to_size_t_succ, <- app_assoc. cbn [length app].
      rewrite Nat2Z.inj_succ. do 3 f_equal. lia.
    + unfold to_size_t. apply Z.mod_mod. discriminate.
    + cbn in Hfuel. lia.
    + right. rewrite length_app. cbn [length]. lia.
Qed.

(** Without room for each node of the path the walk ends in an exception of
    [push_back]. *)
Lemma walk_boundary_no_room m (heap start c : Z) (rest : list Z) :
  Mesh.hull_path m start c rest ->
  forall (fuel : nat) (k : Z) (nodes : list Z),
    (length rest < fuel)%nat ->
    rest <> [] ->
    capacity heap < Z.of_nat (length nodes) + Z.of_nat (length rest) ->
    exists e, Mesh.walk_boundary fuel heap m start c k nodes = Throw e /\
              allocation_failure e.
Proof.
  induction 1 as [| c c' rest Hne Hnext Hpath IH]; intros fuel k nodes Hfuel Hnil Hroom;
    [congruence |].
  destruct fuel as [| fuel]; [cbn in Hfuel; lia |]. cbn [Mesh.walk_boundary].
  replace (start =? c) with false by (symmetry; apply Z.eqb_neq; congruence).
  destruct (Z_lt_le_dec (Z.of_nat (length nodes)) (capacity heap)) as [Hlt | Hge].
  - rewrite push_back_room by exact Hlt. cbn [bind]. rewrite Hnext. cbn [bind].
    cbn [length] in Hroom, Hfuel.
    apply IH.
    + lia.
    + intros ->. cbn [length] in Hroom. lia.
    + rewrite length_app. cbn [length]. lia.
  - destruct (push_back_full heap nodes c Hge) as [e [-> He]]. cbn [bind].
    exists e. split; [reflexivity | exact He].
Qed.

(** *** The nodes of a closed hull path *)

Lemma hull_path_functional m (start c : Z) (r1 : list Z) :
  Mesh.hull_path m start c r1 ->
  forall r2, Mesh.hull_path m start c r2 -> r1 = r2.
Proof.
  induction 1 as [| c c' rest Hne Hnext Hpath IH]; intros r2 H2.
  - inversion H2; [reflexivity | congruence].
  - inversion H2 as [| ? c2 rest2 _ Hnext2 Hpath2]; subst; [congruence |].
    rewrite Hnext in Hnext2. injection Hnext2 as <-.
    f_equal. apply IH. exact Hpath2.
Qed.

Lemma hull_path_avoids_start m (start c : Z) (rest : list Z) :
  Mesh.hull_path m start c rest -> ~ In start rest.
Proof.
  induction 1 as [| c c' rest Hne Hnext Hpath IH]; [intros [] |].
  intros [H | H]; [congruence | exact (IH H)].
Qed.

Lemma hull_path_in_range m (start c : Z) (rest : list Z) :
  Mesh.hull_path m start c rest ->
  Forall (fun n => 0 <= n < Z.of_nat (length (Mesh.lend m))) rest.
Proof.
  induction 1 as [| c c' rest Hne Hnext Hpath IH]; constructor; [| exact IH].
  apply next_node_inv in Hnext. destruct Hnext as [lp [v [Hlp _]]].
  exact (vget_ok_range _ _ _ Hlp).
Qed.

(** From any node on the path, the remainder of the path is again a path. *)
Lemma hull_path_suffix m (start c : Z) (rest : list Z) :
  Mesh.hull_path m start c rest ->
  forall d, In d rest ->
  exists pre post, rest = pre ++ d :: post /\ Mesh.hull_path m start d (d :: post).
Proof.
  induction 1 as [| c c' rest Hne Hnext Hpath IH]; intros d Hd; [destruct Hd |].
  destruct Hd as [<- | Hd].
  - exists [], rest. split; [reflexivity |].
    econstructor; eassumption.
  - destruct (IH d Hd) as [pre [post [Hrest Hd']]].
    exists (c :: pre), post. split; [rewrite Hrest; reflexivity | exact Hd'].
Qed.

(** The walk is deterministic, so a path that closes visits no node twice. *)
Lemma hull_path_NoDup m (start c : Z) (rest : list Z) :
  Mesh.hull_path m start c rest -> NoDup rest.
Proof.
  induction 1 as [| c c' rest Hne Hnext Hpath IH]; constructor; [| exact IH].
  intro Hin.
  destruct (hull_path_suffix _ _ _ _ Hpath c Hin) as [pre [post [Hrest Hc]]].
  assert (Hfull : Mesh.hull_path m start c (c :: rest))
    by (econstructor; eassumption).
  pose proof (hull_path_functional _ _ _ _ Hc _ Hfull) as Heq.
  injection Heq as Heq. subst post.
  apply (f_equal (@length Z)) in Hrest. rewrite length_app in Hrest.
  cbn in Hrest. lia.
Qed.

(** *** The whole of [build_nodes] *)

Lemma build_nodes_inv (fuel : nat) (heap : Z) m (m' : Mesh.tri_mesh Real) :
  Mesh.build_nodes fuel heap m = Ok m' ->
  exists start first rest,
    Mesh.skip_positive fuel m 0 = Ok start /\
    Mesh.next_node m start = Ok first /\
    Mesh.hull_path m start first rest /\
    Z.of_nat (length (Mesh.nodes_ m)) + 1 + Z.of_nat (length rest) <= capacity heap /\
    let k := to_size_t (1 + Z.of_nat (length rest)) in
    let t := to_size_t (2 * Mesh.node_count_ m - k - 2) in
    m' = Mesh.mk_tri_mesh (Mesh.x_ m) (Mesh.y_ m) (Mesh.nodes_ m ++ start :: rest)
           (Mesh.node_count_ m) (Some k)
           (Some (to_size_t (t + Mesh.node_count_ m - 1))) (Some t)
           (Mesh.list_ m) (Mesh.lptr m) (Mesh.lend m) (Mesh.lnew m).
Proof.
  unfold Mesh.build_nodes. cbv zeta.
  destruct (vget (Mesh.lend m) 0) as [lp0 | | |]; cbn [bind]; try discriminate.
  destruct (Mesh.skip_positive fuel m 0) as [start | | |]; cbn [bind]; try discriminate.
  destruct (push_back heap (Mesh.nodes_ m) start) as [nodes1 | | |] eqn:Ep; cbn [bind];
    try discriminate.
  apply push_back_ok_inv in Ep. destruct Ep as [-> Hroom].
  destruct (Mesh.next_node m start) as [first | | |] eqn:En; cbn [bind]; try discriminate.
  destruct (Mesh.walk_boundary fuel heap m start first 1 (Mesh.nodes_ m ++ [start]))
    as [[k nodes] | | |] eqn:Ew; cbn [bind]; try discriminate.
  intro H. injection H as <-.
  apply walk_boundary_inv in Ew; [| reflexivity].
  destruct Ew as [rest [Hpath [-> [-> Hcap]]]].
  exists start, first, rest.
  split; [reflexivity |]. split; [exact En |]. split; [exact Hpath |].
  split.
  - rewrite length_app in Hcap. cbn [length] in Hcap.
    destruct Hcap as [-> | Hcap]; cbn [length]; lia.
  - rewrite <- app_assoc. reflexivity.
Qed.

Lemma build_nodes_complete m (heap : Z) (fuel0 : nat) (start first : Z)
  (rest : list Z) :
  Mesh.skip_positive fuel0 m 0 = Ok start ->
  Mesh.next_node m start = Ok first ->
  Mesh.hull_path m start first rest ->
  Z.of_nat (length (Mesh.nodes_ m)) + 1 + Z.of_nat (length rest) <= capacity heap ->
  let k := to_size_t (1 + Z.of_nat (length rest)) in
  let t := to_size_t (2 * Mesh.node_count_ m - k - 2) in
  Mesh.build_nodes (Nat.max fuel0 (S (length rest))) heap m =
  Ok (Mesh.mk_tri_mesh (Mesh.x_ m) (Mesh.y_ m) (Mesh.nodes_ m ++ start :: rest)
        (Mesh.node_count_ m) (Some k)
        (Some (to_size_t (t + Mesh.node_count_ m - 1))) (Some t)
        (Mesh.list_ m) (Mesh.lptr m) (Mesh.lend m) (Mesh.lnew m)).
Proof.
  intros Hskip Hnext Hpath Hroom k t. unfold Mesh.build_nodes. cbv zeta.
  assert (Hlend : exists lp0, vget (Mesh.lend m) 0 = Ok lp0).
  { destruct (next_node_inv _ _ _ Hnext) as [lp [v [Hlp _]]].
    apply vget_ok_range in Hlp.
    assert (Hstart : 0 <= start).
    { lia. }
    exists (nth (Z.to_nat 0) (Mesh.lend m) 0). apply vget_in_range. lia. }
  destruct Hlend as [lp0 ->]. cbn [bind].
  rewrite (skip_positive_mono m fuel0 _ 0 (Nat.le_max_l _ _)) by (rewrite Hskip; discriminate).
  rewrite Hskip. cbn [bind].
  rewrite push_back_room by lia. cbn [bind].
  rewrite Hnext. cbn [bind].
  rewrite (walk_boundary_complete m heap start first rest Hpath)
    by first [reflexivity | lia | (right; rewrite length_app; cbn [length]; lia)].
  cbn [bind]. rewrite <- app_assoc. reflexivity.
Qed.



End Walk.

(** Pigeonhole: distinct indexes below a bound are no more than the bound. *)
Lemma NoDup_bounded_length (l : list Z) (bound : nat) :
  NoDup l -> Forall (fun n => 0 <= n < Z.of_nat bound) l -> (length l <= bound)%nat.
Proof.
  intros Hnd Hall.
  rewrite <- (length_map Z.to_nat l), <- (length_seq bound 0).
  apply NoDup_incl_length.
  - apply Injective_map_NoDup_in; [| exact Hnd].
    rewrite Forall_forall in Hall.
    intros a b Ha Hb Hab. apply Hall in Ha. apply Hall in Hb. lia.
  - intros n Hn. apply in_map_iff in Hn. destruct Hn as [z [<- Hz]].
    rewrite Forall_forall in Hall. apply Hall in Hz.
    apply in_seq. lia.
Qed.

(** *** The walk that never closes *)












(** ** The meshes the constructor returns *)

Lemma seed_short_out_of_range (n : nat) (ws : list (Mesh.target * Z * Z)) :
  (3 <= n < 6)%nat ->
  ws = Mesh.seed_123 \/ ws = Mesh.seed_132 ->
  Mesh.assign_all (Mesh.mk_adjacency (repeat 0 n) (repeat 0 n) (repeat 0 n)) ws
  = Undefined OutOfRange.
Proof.
  intros Hn Hws.
  assert (Hcases : n = 3%nat \/ n = 4%nat \/ n = 5%nat) by lia.
  destruct Hcases as [-> | [-> | ->]]; destruct Hws as [-> | ->]; reflexivity.
Qed.

(** Every mesh the constructor returns has the seeded form. *)
Lemma tri_mesh_ctor_ok_inv {Real : Type} {ops : RealOps Real} (x y : list Real)
  (m : Mesh.tri_mesh Real) :
  Mesh.tri_mesh_ctor x y = Ok m ->
  exists (x0 y0 x1 y1 x2 y2 x3 y3 x4 y4 x5 y5 : Real) (xr yr : list Real),
    x = x0 :: x1 :: x2 :: x3 :: x4 :: x5 :: xr /\
    y = y0 :: y1 :: y2 :: y3 :: y4 :: y5 :: yr /\
    length xr = length yr /\
    (left x0 y0 x1 y1 x2 y2 = false \/ left x1 y1 x0 y0 x2 y2 = false) /\
    m = Mesh.mk_tri_mesh x y [] (Z.of_nat (length x)) None None None
          (Mesh.seed_entries (left x0 y0 x1 y1 x2 y2) ++ repeat 0 (length xr))
          ([2; 1; 4; 3; 6; 5] ++ repeat 0 (length xr))
          ([2; 4; 6; 0; 0; 0] ++ repeat 0 (length xr))
          None.
Proof.
  intro H.
  assert (Hlen : length x = length y).
  { destruct (Nat.eq_dec (length x) (length y)) as [E | E]; [exact E |].
    rewrite (tri_mesh_ctor_length_mismatch x y E) in H. discriminate. }
  assert (H3 : (3 <= length x)%nat).
  { destruct (Nat.le_gt_cases 3 (length x)) as [E | E]; [exact E |].
    rewrite (tri_mesh_ctor_too_few_nodes x y Hlen E) in H. discriminate. }
  destruct x as [| x0 [| x1 [| x2 xr]]]; cbn in H3; try lia.
  destruct y as [| y0 [| y1 [| y2 yr]]]; cbn in Hlen; try lia.
  assert (Hr : length xr = length yr) by lia.
  assert (Hnc : left x0 y0 x1 y1 x2 y2 = false \/ left x1 y1 x0 y0 x2 y2 = false).
  { destruct (left x0 y0 x1 y1 x2 y2) eqn:E1; [| left; reflexivity].
    destruct (left x1 y1 x0 y0 x2 y2) eqn:E2; [| right; reflexivity].
    exfalso.
    rewrite (proj2 (tri_mesh_ctor_colinear_iff x0 y0 x1 y1 x2 y2 xr yr Hr)
               (conj E1 E2)) in H.
    discriminate. }
  assert (H6 : (3 <= length xr)%nat).
  { destruct (Nat.le_gt_cases 3 (length xr)) as [E | E]; [exact E |].
    pose proof (tri_mesh_ctor_seed x0 y0 x1 y1 x2 y2 xr yr Hr) as Hs.
    cbv zeta in Hs. rewrite Hs in H.
    rewrite !(seed_short_out_of_range (length (x0 :: x1 :: x2 :: xr))) in H
      by (cbn [length]; first [lia | left; reflexivity | right; reflexivity]).
    destruct (negb _); [discriminate |]. destruct (negb _); discriminate. }
  destruct xr as [| x3 [| x4 [| x5 xr]]]; cbn in H6; try lia.
  destruct yr as [| y3 [| y4 [| y5 yr]]]; cbn in Hr; try lia.
  assert (Hr' : length xr = length yr) by lia.
  pose proof (tri_mesh_ctor_seeded x0 y0 x1 y1 x2 y2 x3 y3 x4 y4 x5 y5 xr yr Hr' Hnc)
    as Hs.
  cbv zeta in Hs. rewrite Hs in H. injection H as <-.
  exists x0, y0, x1, y1, x2, y2, x3, y3, x4, y4, x5, y5, xr, yr.
  repeat split; try reflexivity; assumption.
Qed.


(** X14.  The state of a mesh the constructor returns, for every numeric
    type: the coordinates and their number are recorded, [nodes_] is empty,
    the three counts and [lnew] are unassigned, the three adjacency vectors
    have one slot per point, and every slot after the seed (six in [list] and
    [lptr], three in [lend]) holds 0. *)
Theorem tri_mesh_ctor_state {Real : Type} {ops : RealOps Real} (x y : list Real)
  (m : Mesh.tri_mesh Real) :
  Mesh.tri_mesh_ctor x y = Ok m ->
  Mesh.x_ m = x /\ Mesh.y_ m = y /\ Mesh.nodes_ m = [] /\
  Mesh.node_count_ m = Z.of_nat (length x) /\
  Mesh.boundary_node_count_ m = None /\ Mesh.arc_count_ m = None /\
  Mesh.triangle_count_ m = None /\ Mesh.lnew m = None /\
  length (Mesh.list_ m) = length x /\ length (Mesh.lptr m) = length x /\
  length (Mesh.lend m) = length x /\
  firstn 6 (Mesh.lptr m) = [2; 1; 4; 3; 6; 5] /\
  firstn 3 (Mesh.lend m) = [2; 4; 6] /\
  skipn 6 (Mesh.list_ m) = repeat 0 (length x - 6) /\
  skipn 6 (Mesh.lptr m) = repeat 0 (length x - 6) /\
  skipn 3 (Mesh.lend m) = repeat 0 (length x - 3).
Proof.
  intro H. apply tri_mesh_ctor_ok_inv in H.
  destruct H as (x0 & y0 & x1 & y1 & x2 & y2 & x3 & y3 & x4 & y4 & x5 & y5
                 & xr & yr & -> & -> & Hr & Hnc & ->).
  cbn [Mesh.x_ Mesh.y_ Mesh.nodes_ Mesh.node_count_ Mesh.boundary_node_count_
       Mesh.arc_count_ Mesh.triangle_count_ Mesh.lnew Mesh.list_ Mesh.lptr Mesh.lend].
  destruct (left x0 y0 x1 y1 x2 y2); cbn [Mesh.seed_entries];
    rewrite ?length_app, ?repeat_length;
    cbn [length app skipn firstn Nat.sub Nat.add];
    rewrite ?Nat.sub_0_r;
    repeat split; try reflexivity; lia.
Qed.

Lemma tri_mesh_ctor_state_witness :
  (Mesh.tri_mesh_ctor Mesh.six_x Mesh.six_y = Ok Mesh.six_seed /\
   Mesh.lnew Mesh.six_seed = None /\
   length (Mesh.lend Mesh.six_seed) = length Mesh.six_x) /\
  (Mesh.tri_mesh_ctor Mesh.six_x64 Mesh.six_y64 = Ok Mesh.six_seed64 /\
   Mesh.lnew Mesh.six_seed64 = None /\
   length (Mesh.lend Mesh.six_seed64) = length Mesh.six_x64).
Proof.
  split.
  - pose proof tri_mesh_ctor_six as H.
    split; [exact H |].
    pose proof (tri_mesh_ctor_state _ _ _ H) as S.
    split; [apply S | apply S].
  - assert (H : Mesh.tri_mesh_ctor Mesh.six_x64 Mesh.six_y64 = Ok Mesh.six_seed64)
      by (vm_compute; reflexivity).
    split; [exact H |].
    pose proof (tri_mesh_ctor_state _ _ _ H) as S.
    split; [apply S | apply S].
Defined.

(** ** The boundary [build_nodes] records *)

Section WalkProperties.
Context {Real : Type}.
Implicit Types (m : Mesh.tri_mesh Real).

(** The scan stops at the first entry that is not positive. *)
Lemma skip_positive_inv m (fuel : nat) :
  Z.of_nat (length (Mesh.list_ m)) <= vector_max_size ->
  forall s r : Z,
    0 <= s ->
    Mesh.skip_positive fuel m s = Ok r ->
    s <= r /\
    (exists v, vget (Mesh.list_ m) r = Ok v /\ v <= 0) /\
    (forall i, s <= i < r -> exists w, vget (Mesh.list_ m) i = Ok w /\ 0 < w).
Proof.
  intro Hmax. unfold vector_max_size in Hmax.
  induction fuel as [| fuel IH]; intros s r Hs H; cbn in H; [discriminate |].
  destruct (vget (Mesh.list_ m) s) as [v | | |] eqn:E; cbn in H; try discriminate.
  pose proof (vget_ok_range _ _ _ E) as Hrange.
  destruct (0 <? v) eqn:Ev.
  - apply Z.ltb_lt in Ev.
    rewrite to_size_t_small in H by (unfold size_t_modulus; lia).
    apply IH in H; [| lia]. destruct H as [Hle [Hr Hbefore]].
    split; [lia | split; [exact Hr |]].
    intros i Hi. destruct (Z.eq_dec i s) as [-> | Hne].
    + exists v. split; [exact E | exact Ev].
    + apply Hbefore. lia.
  - apply Z.ltb_ge in Ev. injection H as <-.
    split; [lia | split].
    + exists v. split; [exact E | exact Ev].
    + intros i Hi. lia.
Qed.

(** X15.  When [build_nodes] returns, the first node it appends to [nodes_]
    is the least index whose [list] entry is not positive: its own entry is
    zero or negative and every entry before it is positive. *)
Theorem build_nodes_start_node (fuel : nat) (heap : Z) m (m' : Mesh.tri_mesh Real) :
  Z.of_nat (length (Mesh.list_ m)) <= vector_max_size ->
  Mesh.build_nodes fuel heap m = Ok m' ->
  exists (start : Z) (rest : list Z) (v : Z),
    Mesh.nodes_ m' = Mesh.nodes_ m ++ start :: rest /\
    vget (Mesh.list_ m) start = Ok v /\ v <= 0 /\
    forall i, 0 <= i < start -> exists w, vget (Mesh.list_ m) i = Ok w /\ 0 < w.
Proof.
  intros Hmax Hrun. apply build_nodes_inv in Hrun.
  destruct Hrun as [start [first [rest [Hskip [_ [_ [_ Hm']]]]]]].
  cbv zeta in Hm'. subst m'.
  destruct (skip_positive_inv m fuel Hmax 0 start (Z.le_refl 0) Hskip)
    as [_ [[v [Hv Hle]] Hbefore]].
  exists start, rest, v. repeat split; assumption.
Qed.

(** Consecutive nodes of a hull path are linked by [next_node]. *)
Lemma hull_path_linked m (start c : Z) (rest : list Z) :
  Mesh.hull_path m start c rest ->
  nth 0 (rest ++ [start]) 0 = c /\
  forall i : nat, (i < length rest)%nat ->
    Mesh.next_node m (nth i rest 0) = Ok (nth (S i) (rest ++ [start]) 0).
Proof.
  induction 1 as [| c c' rest Hne Hnext Hpath [IH0 IH]]; split.
  - reflexivity.
  - intros i Hi. cbn in Hi. lia.
  - reflexivity.
  - intros [| i] Hi.
    + cbn [nth app]. rewrite IH0. exact Hnext.
    + cbn [nth app]. apply IH. cbn in Hi. lia.
Qed.

(** The boundary walk, the start node included, has at most as many nodes as
    [lend] has entries. *)
Lemma hull_walk_length m (start first : Z) (rest : list Z) :
  Mesh.next_node m start = Ok first ->
  Mesh.hull_path m start first rest ->
  (1 + length rest <= length (Mesh.lend m))%nat.
Proof.
  intros Hnext Hpath.
  change (1 + length rest)%nat with (length (start :: rest)).
  apply NoDup_bounded_length.
  - constructor.
    + exact (hull_path_avoids_start _ _ _ _ Hpath).
    + exact (hull_path_NoDup _ _ _ _ Hpath).
  - constructor.
    + apply next_node_inv in Hnext. destruct Hnext as [lp [v [Hlp _]]].
      exact (vget_ok_range _ _ _ Hlp).
    + exact (hull_path_in_range _ _ _ _ Hpath).
Qed.

(** X16.  When [build_nodes] returns, the nodes it has appended to [nodes_]
    form a simple cycle of the map "node -> list[lend[node]]": they are
    pairwise distinct indexes into [lend], each is followed by its image under
    that map, the last one is mapped back to the first, and their number is
    the boundary node count. *)
Theorem build_nodes_simple_cycle (fuel : nat) (heap : Z) m (m' : Mesh.tri_mesh Real) :
  Z.of_nat (length (Mesh.lend m)) <= vector_max_size ->
  Mesh.build_nodes fuel heap m = Ok m' ->
  exists (start : Z) (rest : list Z),
    Mesh.nodes_ m' = Mesh.nodes_ m ++ start :: rest /\
    NoDup (start :: rest) /\
    Forall (fun n => 0 <= n < Z.of_nat (length (Mesh.lend m))) (start :: rest) /\
    (forall i : nat, (i < length (start :: rest))%nat ->
       Mesh.next_node m (nth i (start :: rest) 0)
       = Ok (nth (S i) ((start :: rest) ++ [start]) 0)) /\
    Mesh.boundary_node_count_ m' = Some (Z.of_nat (length (start :: rest))).
Proof.
  intros Hmax Hrun. apply build_nodes_inv in Hrun.
  destruct Hrun as [start [first [rest [_ [Hnext [Hpath [_ Hm']]]]]]].
  cbv zeta in Hm'. subst m'.
  cbn [Mesh.nodes_ Mesh.boundary_node_count_].
  pose proof (hull_walk_length _ _ _ _ Hnext Hpath) as Hlen.
  destruct (hull_path_linked _ _ _ _ Hpath) as [H0 Hlinked].
  exists start, rest. split; [reflexivity |]. split; [| split; [| split]].
  - constructor.
    + exact (hull_path_avoids_start _ _ _ _ Hpath).
    + exact (hull_path_NoDup _ _ _ _ Hpath).
  - constructor.
    + apply next_node_inv in Hnext. destruct Hnext as [lp [v [Hlp _]]].
      exact (vget_ok_range _ _ _ Hlp).
    + exact (hull_path_in_range _ _ _ _ Hpath).
  - intros [| i] Hi.
    + cbn [nth app]. rewrite H0. exact Hnext.
    + cbn [nth app]. apply Hlinked. cbn in Hi. lia.
  - f_equal. unfold vector_max_size in Hmax.
    rewrite to_size_t_small by (unfold size_t_modulus; lia).
    cbn [length]. lia.
Qed.

Lemma skip_positive_all_positive m :
  Forall (fun v => 0 < v) (Mesh.list_ m) ->
  Z.of_nat (length (Mesh.list_ m)) <= vector_max_size ->
  forall (fuel : nat) (s : Z),
    0 <= s <= Z.of_nat (length (Mesh.list_ m)) ->
    Z.of_nat (length (Mesh.list_ m)) - s < Z.of_nat fuel ->
    Mesh.skip_positive fuel m s = Undefined OutOfRange.
Proof.
  intros Hpos Hmax. unfold vector_max_size in Hmax.
  induction fuel as [| fuel IH]; intros s Hs Hfuel; [lia |].
  cbn [Mesh.skip_positive].
  destruct (Z.eq_dec s (Z.of_nat (length (Mesh.list_ m)))) as [-> | Hne].
  - rewrite vget_out_of_range by lia. reflexivity.
  - rewrite (vget_in_range (Mesh.list_ m) s 0) by lia. cbn [bind].
    assert (Hv : 0 < nth (Z.to_nat s) (Mesh.list_ m) 0).
    { rewrite Forall_forall in Hpos. apply Hpos. apply nth_In. lia. }
    replace (0 <? nth (Z.to_nat s) (Mesh.list_ m) 0) with true
      by (symmetry; apply Z.ltb_lt; exact Hv).
    rewrite to_size_t_small by (unfold size_t_modulus; lia).
    apply IH; lia.
Qed.

(** X17.  On a mesh whose [list] has no zero or negative entry, [build_nodes]
    finds no node to start from: the scan for it runs past the end of [list]
    (if [lend] is empty the very first read is already out of range). *)
Theorem build_nodes_no_marker_out_of_range (fuel : nat) (heap : Z) m :
  Forall (fun v => 0 < v) (Mesh.list_ m) ->
  Z.of_nat (length (Mesh.list_ m)) <= vector_max_size ->
  (length (Mesh.list_ m) < fuel)%nat ->
  Mesh.build_nodes fuel heap m = Undefined OutOfRange.
Proof.
  intros Hpos Hmax Hfuel. unfold Mesh.build_nodes. cbv zeta.
  destruct (vget_result (Mesh.lend m) 0) as [[lp ->] | ->]; cbn [bind];
    [| reflexivity].
  rewrite (skip_positive_all_positive m Hpos Hmax) by lia. reflexivity.
Qed.

(** The walk depends on the mesh through [list] and [lend] only. *)
Lemma next_node_ext m (m' : Mesh.tri_mesh Real) (c : Z) :
  Mesh.list_ m' = Mesh.list_ m -> Mesh.lend m' = Mesh.lend m ->
  Mesh.next_node m' c = Mesh.next_node m c.
Proof. intros Hl He. unfold Mesh.next_node. rewrite Hl, He. reflexivity. Qed.

Lemma skip_positive_ext m (m' : Mesh.tri_mesh Real) (fuel : nat) :
  Mesh.list_ m' = Mesh.list_ m ->
  forall s, Mesh.skip_positive fuel m' s = Mesh.skip_positive fuel m s.
Proof.
  intro Hl. induction fuel as [| fuel IH]; intro s; [reflexivity |].
  cbn [Mesh.skip_positive]. rewrite Hl.
  destruct (vget (Mesh.list_ m) s) as [v | | |]; cbn [bind]; try reflexivity.
  destruct (0 <? v); [apply IH | reflexivity].
Qed.

Lemma hull_path_ext m (m' : Mesh.tri_mesh Real) (start c : Z) (rest : list Z) :
  Mesh.list_ m' = Mesh.list_ m -> Mesh.lend m' = Mesh.lend m ->
  Mesh.hull_path m start c rest -> Mesh.hull_path m' start c rest.
Proof.
  intros Hl He. induction 1 as [| c c' rest Hne Hnext Hpath IH]; [constructor |].
  apply Mesh.hull_path_step with (c' := c'); [exact Hne | | exact IH].
  rewrite (next_node_ext m m' c Hl He). exact Hnext.
Qed.

(** Without room in [nodes_] for the nodes of a closing walk, [build_nodes]
    ends in an exception of [push_back]. *)
Lemma build_nodes_no_room m (heap : Z) (fuel0 : nat) (start first : Z)
  (rest : list Z) :
  Mesh.skip_positive fuel0 m 0 = Ok start ->
  Mesh.next_node m start = Ok first ->
  Mesh.hull_path m start first rest ->
  capacity heap < Z.of_nat (length (Mesh.nodes_ m)) + 1 + Z.of_nat (length rest) ->
  exists e,
    Mesh.build_nodes (Nat.max fuel0 (S (length rest))) heap m = Throw e /\
    allocation_failure e.
Proof.
  intros Hskip Hnext Hpath Hroom. unfold Mesh.build_nodes. cbv zeta.
  assert (Hlend : exists lp0, vget (Mesh.lend m) 0 = Ok lp0).
  { destruct (next_node_inv _ _ _ Hnext) as [lp [v [Hlp _]]].
    apply vget_ok_range in Hlp.
    exists (nth (Z.to_nat 0) (Mesh.lend m) 0). apply vget_in_range. lia. }
  destruct Hlend as [lp0 ->]. cbn [bind].
  rewrite (skip_positive_mono m fuel0 _ 0 (Nat.le_max_l _ _))
    by (rewrite Hskip; discriminate).
  rewrite Hskip. cbn [bind].
  destruct (Z_lt_le_dec (Z.of_nat (length (Mesh.nodes_ m))) (capacity heap))
    as [Hlt | Hge].
  - rewrite push_back_room by exact Hlt. cbn [bind]. rewrite Hnext. cbn [bind].
    destruct (walk_boundary_no_room m heap start first rest Hpath
                (Nat.max fuel0 (S (length rest))) 1 (Mesh.nodes_ m ++ [start]))
      as [e [-> He]].
    + lia.
    + intros ->. cbn [length] in Hroom. lia.
    + rewrite length_app. cbn [length]. lia.
    + cbn [bind]. exists e. split; [reflexivity | exact He].
  - destruct (push_back_full heap (Mesh.nodes_ m) start Hge) as [e [-> He]].
    cbn [bind]. exists e. split; [reflexivity | exact He].
Qed.

(** X18.  [build_nodes] appends to [nodes_] without clearing it and leaves
    the adjacency vectors alone.  Run again on its own result, it returns
    again when [nodes_] has room for the boundary cycle a second time, with
    the same three counts, and the cycle is then stored twice; when [nodes_]
    has no room for it, the second run ends in an exception of [push_back]. *)
Theorem build_nodes_twice (fuel : nat) (heap : Z) m (m' : Mesh.tri_mesh Real) :
  Mesh.build_nodes fuel heap m = Ok m' ->
  exists (cycle : list Z) (fuel' : nat),
    Mesh.nodes_ m' = Mesh.nodes_ m ++ cycle /\
    (Z.of_nat (length (Mesh.nodes_ m')) + Z.of_nat (length cycle) <= capacity heap ->
     exists m'' : Mesh.tri_mesh Real,
       Mesh.build_nodes fuel' heap m' = Ok m'' /\
       Mesh.nodes_ m'' = Mesh.nodes_ m ++ cycle ++ cycle /\
       Mesh.boundary_node_count_ m'' = Mesh.boundary_node_count_ m' /\
       Mesh.triangle_count_ m'' = Mesh.triangle_count_ m' /\
       Mesh.arc_count_ m'' = Mesh.arc_count_ m' /\
       Mesh.list_ m'' = Mesh.list_ m /\ Mesh.lptr m'' = Mesh.lptr m /\
       Mesh.lend m'' = Mesh.lend m) /\
    (capacity heap < Z.of_nat (length (Mesh.nodes_ m')) + Z.of_nat (length cycle) ->
     exists e, Mesh.build_nodes fuel' heap m' = Throw e /\ allocation_failure e).
Proof.
  intro Hrun. apply build_nodes_inv in Hrun.
  destruct Hrun as [start [first [rest [Hskip [Hnext [Hpath [_ Hm']]]]]]].
  cbv zeta in Hm'.
  assert (Hl : Mesh.list_ m' = Mesh.list_ m) by (subst m'; reflexivity).
  assert (He : Mesh.lend m' = Mesh.lend m) by (subst m'; reflexivity).
  assert (Hskip' : Mesh.skip_positive fuel m' 0 = Ok start)
    by (rewrite (skip_positive_ext m m' fuel Hl); exact Hskip).
  assert (Hnext' : Mesh.next_node m' start = Ok first)
    by (rewrite (next_node_ext m m' start Hl He); exact Hnext).
  pose proof (hull_path_ext m m' start first rest Hl He Hpath) as Hpath'.
  exists (start :: rest), (Nat.max fuel (S (length rest))).
  split; [subst m'; reflexivity |]. split.
  - intro Hroom.
    pose proof (build_nodes_complete m' heap fuel start first rest Hskip' Hnext' Hpath')
      as H2.
    cbv zeta in H2. eexists. split; [apply H2; cbn [length] in Hroom; lia |].
    subst m'. cbn. rewrite <- app_assoc. repeat split.
  - intro Hroom.
    apply (build_nodes_no_room m' heap fuel start first rest Hskip' Hnext' Hpath').
    cbn [length] in Hroom. lia.
Qed.

End WalkProperties.

Lemma build_nodes_ring : Mesh.build_nodes 3 6 Mesh.ring_mesh = Ok Mesh.ring_built.
Proof. reflexivity. Qed.

Lemma build_nodes_start_node_witness :
  exists (start : Z) (rest : list Z) (v : Z),
    Mesh.nodes_ Mesh.six_built = Mesh.nodes_ Mesh.six_seed ++ start :: rest /\
    vget (Mesh.list_ Mesh.six_seed) start = Ok v /\ v <= 0 /\
    forall i, 0 <= i < start ->
              exists w, vget (Mesh.list_ Mesh.six_seed) i = Ok w /\ 0 < w.
Proof.
  apply (build_nodes_start_node 2 1 Mesh.six_seed Mesh.six_built).
  - unfold vector_max_size. cbn. lia.
  - reflexivity.
Defined.

Lemma build_nodes_simple_cycle_witness :
  exists (start : Z) (rest : list Z),
    Mesh.nodes_ Mesh.ring_built = Mesh.nodes_ Mesh.ring_mesh ++ start :: rest /\
    NoDup (start :: rest) /\
    Forall (fun n => 0 <= n < Z.of_nat (length (Mesh.lend Mesh.ring_mesh)))
           (start :: rest) /\
    (forall i : nat, (i < length (start :: rest))%nat ->
       Mesh.next_node Mesh.ring_mesh (nth i (start :: rest) 0)
       = Ok (nth (S i) ((start :: rest) ++ [start]) 0)) /\
    Mesh.boundary_node_count_ Mesh.ring_built
    = Some (Z.of_nat (length (start :: rest))).
Proof.
  apply (build_nodes_simple_cycle 3 6 Mesh.ring_mesh Mesh.ring_built).
  - unfold vector_max_size. cbn. lia.
  - exact build_nodes_ring.
Defined.

Lemma build_nodes_no_marker_out_of_range_witness :
  Mesh.build_nodes 4 8 Mesh.unmarked_mesh = Undefined OutOfRange.
Proof.
  apply build_nodes_no_marker_out_of_range.
  - repeat constructor.
  - unfold vector_max_size. cbn. lia.
  - cbn. lia.
Defined.

Lemma build_nodes_twice_witness :
  exists (cycle : list Z) (fuel' : nat),
    Mesh.nodes_ Mesh.ring_built = Mesh.nodes_ Mesh.ring_mesh ++ cycle /\
    (Z.of_nat (length (Mesh.nodes_ Mesh.ring_built)) + Z.of_nat (length cycle)
     <= capacity 6 ->
     exists m'' : Mesh.tri_mesh R,
       Mesh.build_nodes fuel' 6 Mesh.ring_built = Ok m'' /\
       Mesh.nodes_ m'' = Mesh.nodes_ Mesh.ring_mesh ++ cycle ++ cycle /\
       Mesh.boundary_node_count_ m'' = Mesh.boundary_node_count_ Mesh.ring_built /\
       Mesh.triangle_count_ m'' = Mesh.triangle_count_ Mesh.ring_built /\
       Mesh.arc_count_ m'' = Mesh.arc_count_ Mesh.ring_built /\
       Mesh.list_ m'' = Mesh.list_ Mesh.ring_mesh /\
       Mesh.lptr m'' = Mesh.lptr Mesh.ring_mesh /\
       Mesh.lend m'' = Mesh.lend Mesh.ring_mesh) /\
    (capacity 6 < Z.of_nat (length (Mesh.nodes_ Mesh.ring_built))
                  + Z.of_nat (length cycle) ->
     exists e, Mesh.build_nodes fuel' 6 Mesh.ring_built = Throw e /\
               allocation_failure e).
Proof.
  apply (build_nodes_twice 3 6 Mesh.ring_mesh Mesh.ring_built).
  exact build_nodes_ring.
Defined.

(** ** Construction followed by boundary enumeration *)

Lemma vget_app_l {A : Type} (pre t : list A) (i : Z) (a : A) :
  vget pre i = Ok a -> vget (pre ++ t) i = Ok a.
Proof.
  intro H. pose proof (vget_ok_range _ _ _ H) as Hi.
  rewrite (vget_in_range pre i a Hi) in H. injection H as H.
  rewrite (vget_in_range (pre ++ t) i a) by (rewrite length_app; lia).
  f_equal. rewrite app_nth1 by lia. exact H.
Qed.

Lemma vget_app_r_head {A : Type} (pre t : list A) (a : A) :
  vget (pre ++ a :: t) (Z.of_nat (length pre)) = Ok a.
Proof.
  rewrite (vget_in_range _ _ a) by (rewrite length_app; cbn [length]; lia).
  rewrite Nat2Z.id, app_nth2 by lia. rewrite Nat.sub_diag. reflexivity.
Qed.

Section Seeded.
Context {Real : Type}.
Implicit Types (m : Mesh.tri_mesh Real).

(** The walk on a seeded mesh, by the outcome of the first orientation test. *)
Lemma seeded_skip_positive (ccw : bool) (t : list Z) m :
  Mesh.list_ m = Mesh.seed_entries ccw ++ t ->
  Mesh.skip_positive 2 m 0 = Ok 1.
Proof.
  intro Hl. cbn [Mesh.skip_positive]. rewrite Hl.
  destruct ccw; cbn [Mesh.seed_entries].
  - erewrite (vget_app_l _ _ 0) by reflexivity. cbn [bind].
    change (0 <? 2) with true. cbv iota. change (to_size_t (0 + 1)) with 1.
    erewrite (vget_app_l _ _ 1) by reflexivity. reflexivity.
  - erewrite (vget_app_l _ _ 0) by reflexivity. cbn [bind].
    change (0 <? 3) with true. cbv iota. change (to_size_t (0 + 1)) with 1.
    erewrite (vget_app_l _ _ 1) by reflexivity. reflexivity.
Qed.

Lemma seeded_next_node m (pre_list pre_lend t1 t2 : list Z) (c lp v : Z) :
  Mesh.list_ m = pre_list ++ t1 -> Mesh.lend m = pre_lend ++ t2 ->
  vget pre_lend c = Ok lp -> vget pre_list lp = Ok v ->
  Mesh.next_node m c = Ok (to_size_t v).
Proof.
  intros Hl He Hlp Hv. unfold Mesh.next_node. rewrite Hl, He.
  rewrite (vget_app_l _ _ _ _ Hlp). cbn [bind].
  rewrite (vget_app_l _ _ _ _ Hv). reflexivity.
Qed.

End Seeded.

(** X19.  Run on the mesh the constructor returns for seven points or more,
    with room for three elements in [nodes_], [build_nodes] returns: when the
    first orientation test left(P0,P1,P2) of the constructor answered true
    (a counterclockwise first triple) it records the single boundary node 1
    (boundary node count 1), when it answered false (a clockwise one) it
    records the nodes 1, 2, 0 (boundary node count 3). *)
Theorem tri_mesh_ctor_then_boundary {Real : Type} {ops : RealOps Real}
  (x y : list Real) (m : Mesh.tri_mesh Real) (heap : Z) :
  Mesh.tri_mesh_ctor x y = Ok m ->
  (7 <= length x)%nat ->
  3 <= capacity heap ->
  exists (fuel : nat) (m' : Mesh.tri_mesh Real),
    Mesh.build_nodes fuel heap m = Ok m' /\
    Mesh.nodes_ m' =
      (if left (nth 0 x (of_int 0)) (nth 0 y (of_int 0)) (nth 1 x (of_int 0))
               (nth 1 y (of_int 0)) (nth 2 x (of_int 0)) (nth 2 y (of_int 0))
       then [1] else [1; 2; 0]) /\
    Mesh.boundary_node_count_ m' =
      (if left (nth 0 x (of_int 0)) (nth 0 y (of_int 0)) (nth 1 x (of_int 0))
               (nth 1 y (of_int 0)) (nth 2 x (of_int 0)) (nth 2 y (of_int 0))
       then Some 1 else Some 3).
Proof.
  intros H H7 Hroom. apply tri_mesh_ctor_ok_inv in H.
  destruct H as (x0 & y0 & x1 & y1 & x2 & y2 & x3 & y3 & x4 & y4 & x5 & y5
                 & xr & yr & -> & -> & Hr & Hnc & Hm).
  destruct xr as [| x6 xr]; [cbn in H7; lia |].
  cbn [nth]. cbn [length repeat] in Hm.
  assert (Hl : Mesh.list_ m = Mesh.seed_entries (left x0 y0 x1 y1 x2 y2)
                              ++ 0 :: repeat 0 (length xr))
    by (subst m; reflexivity).
  assert (He : Mesh.lend m = [2; 4; 6; 0; 0; 0] ++ 0 :: repeat 0 (length xr))
    by (subst m; reflexivity).
  assert (Hn : Mesh.nodes_ m = []) by (subst m; reflexivity).
  pose proof (seeded_skip_positive _ _ m Hl) as Hskip.
  destruct (left x0 y0 x1 y1 x2 y2); cbn [Mesh.seed_entries] in Hl.
  - assert (Hnext : Mesh.next_node m 1 = Ok 1)
      by (apply (seeded_next_node m _ _ _ _ 1 4 1 Hl He); reflexivity).
    pose proof (build_nodes_complete m heap 2 1 1 [] Hskip Hnext
                  (Mesh.hull_path_closed m 1)) as Hrun.
    cbv zeta in Hrun. eexists _, _.
    split; [apply Hrun; rewrite Hn; cbn [length]; lia |].
    cbn [Mesh.nodes_ Mesh.boundary_node_count_]. rewrite Hn. split; reflexivity.
  - assert (Hn1 : Mesh.next_node m 1 = Ok 2)
      by (apply (seeded_next_node m _ _ _ _ 1 4 2 Hl He); reflexivity).
    assert (Hn2 : Mesh.next_node m 2 = Ok 0).
    { unfold Mesh.next_node. rewrite Hl, He.
      erewrite (vget_app_l _ _ 2) by reflexivity. cbn [bind].
      rewrite (vget_app_r_head [3; -2; 1; -3; 2; -1]). reflexivity. }
    assert (Hn0 : Mesh.next_node m 0 = Ok 1)
      by (apply (seeded_next_node m _ _ _ _ 0 2 1 Hl He); reflexivity).
    assert (Hpath : Mesh.hull_path m 1 2 [2; 0]).
    { apply Mesh.hull_path_step with (c' := 0); [discriminate | exact Hn2 |].
      apply Mesh.hull_path_step with (c' := 1); [discriminate | exact Hn0 |].
      apply Mesh.hull_path_closed. }
    pose proof (build_nodes_complete m heap 2 1 2 [2; 0] Hskip Hn1 Hpath) as Hrun.
    cbv zeta in Hrun. eexists _, _.
    split; [apply Hrun; rewrite Hn; cbn [length]; lia |].
    cbn [Mesh.nodes_ Mesh.boundary_node_count_]. rewrite Hn. split; reflexivity.
Qed.

Lemma tri_mesh_ctor_seven :
  Mesh.tri_mesh_ctor Mesh.seven_x Mesh.seven_y = Ok Mesh.seven_seed.
Proof.
  unfold Mesh.seven_x, Mesh.seven_y.
  rewrite (tri_mesh_ctor_seeded 0%R 0%R 0%R 1%R 1%R 0%R 2%R 0%R 2%R 2%R 0%R 2%R
             [3%R] [3%R] eq_refl)
    by (left; apply left_false_iff; lra).
  replace (left 0%R 0%R 0%R 1%R 1%R 0%R) with false
    by (symmetry; apply left_false_iff; lra).
  reflexivity.
Qed.

Lemma tri_mesh_ctor_then_boundary_witness :
  exists (fuel : nat) (m' : Mesh.tri_mesh R),
    Mesh.build_nodes fuel 3 Mesh.seven_seed = Ok m' /\
    Mesh.nodes_ m' =
      (if left (nth 0 Mesh.seven_x (of_int 0)) (nth 0 Mesh.seven_y (of_int 0))
               (nth 1 Mesh.seven_x (of_int 0)) (nth 1 Mesh.seven_y (of_int 0))
               (nth 2 Mesh.seven_x (of_int 0)) (nth 2 Mesh.seven_y (of_int 0))
       then [1] else [1; 2; 0]) /\
    Mesh.boundary_node_count_ m' =
      (if left (nth 0 Mesh.seven_x (of_int 0)) (nth 0 Mesh.seven_y (of_int 0))
               (nth 1 Mesh.seven_x (of_int 0)) (nth 1 Mesh.seven_y (of_int 0))
               (nth 2 Mesh.seven_x (of_int 0)) (nth 2 Mesh.seven_y (of_int 0))
       then Some 1 else Some 3).
Proof.
  apply (tri_mesh_ctor_then_boundary Mesh.seven_x Mesh.seven_y Mesh.seven_seed 3).
  - exact tri_mesh_ctor_seven.
  - cbn. lia.
  - vm_compute. discriminate.
Defined.

(** X20.  For exactly six points on which the first orientation test
    left(P0,P1,P2) answers false (a clockwise first triple) the constructor
    returns a mesh on which [build_nodes], given room for two elements in
    [nodes_], fails: from node 1 the walk reaches node 2, whose [lend] entry 6
    is one past the six slots of [list]. *)
Theorem tri_mesh_ctor_six_clockwise_boundary {Real : Type} {ops : RealOps Real}
  (x y : list Real) (m : Mesh.tri_mesh Real) (fuel : nat) (heap : Z) :
  Mesh.tri_mesh_ctor x y = Ok m ->
  length x = 6%nat ->
  left (nth 0 x (of_int 0)) (nth 0 y (of_int 0)) (nth 1 x (of_int 0))
       (nth 1 y (of_int 0)) (nth 2 x (of_int 0)) (nth 2 y (of_int 0)) = false ->
  (2 <= fuel)%nat ->
  2 <= capacity heap ->
  Mesh.build_nodes fuel heap m = Undefined OutOfRange.
Proof.
  intros H H6 Hcw Hfuel Hroom. apply tri_mesh_ctor_ok_inv in H.
  destruct H as (x0 & y0 & x1 & y1 & x2 & y2 & x3 & y3 & x4 & y4 & x5 & y5
                 & xr & yr & -> & -> & Hr & Hnc & Hm).
  destruct xr as [| x6 xr]; [| cbn in H6; lia].
  cbn [nth] in Hcw. rewrite Hcw in Hm. cbn [length repeat Mesh.seed_entries] in Hm.
  assert (Hl : Mesh.list_ m = Mesh.seed_entries false ++ [])
    by (subst m; reflexivity).
  assert (He : Mesh.lend m = [2; 4; 6; 0; 0; 0] ++ []) by (subst m; reflexivity).
  assert (Hn : Mesh.nodes_ m = []) by (subst m; reflexivity).
  pose proof (seeded_skip_positive _ _ m Hl) as Hskip.
  assert (Hskip' : Mesh.skip_positive fuel m 0 = Ok 1).
  { rewrite (skip_positive_mono m 2 fuel 0 Hfuel) by (rewrite Hskip; discriminate).
    exact Hskip. }
  cbn [Mesh.seed_entries] in Hl.
  assert (Hn1 : Mesh.next_node m 1 = Ok 2)
    by (apply (seeded_next_node m _ _ _ _ 1 4 2 Hl He); reflexivity).
  assert (Hn2 : Mesh.next_node m 2 = Undefined OutOfRange)
    by (unfold Mesh.next_node; rewrite Hl, He; reflexivity).
  unfold Mesh.build_nodes. cbv zeta.
  rewrite He at 1. change (vget ([2; 4; 6; 0; 0; 0] ++ []) 0) with (@Ok Z 2).
  cbn [bind]. rewrite Hskip'. cbn [bind].
  rewrite Hn, push_back_room by (cbn [length]; lia). cbn [bind].
  rewrite Hn1. cbn [bind].
  destruct fuel as [| fuel]; [lia |]. cbn [Mesh.walk_boundary].
  change (1 =? 2) with false. cbv iota.
  rewrite push_back_room by (cbn [length app]; lia). cbn [bind].
  rewrite Hn2. reflexivity.
Qed.

Lemma tri_mesh_ctor_six_clockwise_boundary_witness :
  Mesh.build_nodes 2 2 Mesh.six_cw_seed = Undefined OutOfRange.
Proof.
  apply (tri_mesh_ctor_six_clockwise_boundary Mesh.six_cw_x Mesh.six_cw_y).
  - unfold Mesh.six_cw_x, Mesh.six_cw_y.
    rewrite (tri_mesh_ctor_seeded 0%R 0%R 0%R 1%R 1%R 0%R 2%R 0%R 2%R 2%R 0%R 2%R
               [] [] eq_refl)
      by (left; apply left_false_iff; lra).
    replace (left 0%R 0%R 0%R 1%R 1%R 0%R) with false
      by (symmetry; apply left_false_iff; lra).
    reflexivity.
  - reflexivity.
  - apply left_false_iff. cbn [nth Mesh.six_cw_x Mesh.six_cw_y]. simpl_exact. lra.
  - lia.
  - vm_compute. discriminate.
Defined.
